(** * Movie recommendation engine: similarity primitives, title resolver, ranker

    A shallow embedding of the two algorithm modules of the repository:

    - [Algorithms]   : the module with stop-word preprocessing, the two-row
                       Levenshtein distance and its length-difference
                       short-circuit, the multi-strategy title matching,
                       [searchMovies] and the franchise bonus;
    - [JsAlgorithms] : [js/algorithms.js], the module without them, whose
                       [levenshteinDistance] fills the full matrix.

    JavaScript strings are sequences of UTF-16 code units, numbers are
    modelled as exact reals (rounding of doubles is outside the model),
    arrays are lists updated in place by index.  Counts such as [topN] and
    [maxResults] are natural numbers. *)

From Stdlib Require Import String Ascii NArith ZArith Reals Lra Lia Sorted.
From stdpp Require Import base list.

Open Scope list_scope.

(** ** Strings *)

Abbreviation codeunit := N.
Abbreviation jsstring := (list codeunit).

(** [js "..."] is the string whose code units are the bytes of the literal. *)
Definition js (s : String.string) : jsstring :=
  List.map N_of_ascii (list_ascii_of_string s).
Arguments js s%_string.

(** White space and line terminators of ECMAScript: the set stripped by
    [String.prototype.trim] and matched by the regular expression [\s]. *)
Definition isSpace (c : codeunit) : bool :=
  ((9 <=? c) && (c <=? 13) || (c =? 32) || (c =? 160) || (c =? 5760)
   || (8192 <=? c) && (c <=? 8202) || (c =? 8232) || (c =? 8233)
   || (c =? 8239) || (c =? 8287) || (c =? 12288) || (c =? 65279))%N.

(** [String.prototype.toLowerCase], code unit by code unit.  The table holds
    the cased code units of Basic Latin and Latin-1 Supplement, and U+0130
    (capital I with dot above), the one code point whose unconditional
    lower-case mapping is longer than itself (U+0069 U+0307).  Cased letters
    of other scripts are outside the table and are left as they are. *)
Definition lowerUnit (c : codeunit) : jsstring :=
  (if (65 <=? c) && (c <=? 90) then [c + 32]
   else if (192 <=? c) && (c <=? 222) && negb (c =? 215) then [c + 32]
   else if c =? 304 then [105; 775]
   else [c])%N.

Definition toLowerCase (s : jsstring) : jsstring := concat (List.map lowerUnit s).

Fixpoint trimStart (s : jsstring) : jsstring :=
  match s with
  | c :: s' => if isSpace c then trimStart s' else s
  | [] => []
  end.

Definition trimEnd (s : jsstring) : jsstring := rev (trimStart (rev s)).

Definition trim (s : jsstring) : jsstring := trimEnd (trimStart s).

Fixpoint startsWith (s t : jsstring) {struct t} : bool :=
  match t, s with
  | [], _ => true
  | _ :: _, [] => false
  | b :: t', a :: s' => (a =? b)%N && startsWith s' t'
  end.

(** [s.includes(t)]: [t] occurs in [s] at some position. *)
Fixpoint includes (s t : jsstring) : bool :=
  startsWith s t ||
  match s with
  | [] => false
  | _ :: s' => includes s' t
  end.

(** [s.split(re)] for a regular expression [re] matching one or more
    separator code units: the fields between the maximal runs of separators;
    a run at either end of [s] leaves an empty field there, and the empty
    string has the single field [""]. *)
Fixpoint splitFrom (sep : codeunit -> bool) (s : jsstring) (afterSep : bool)
  : list jsstring :=
  match s with
  | [] => [[]]
  | c :: s' =>
      if sep c then
        if afterSep then splitFrom sep s' true else [] :: splitFrom sep s' true
      else
        match splitFrom sep s' false with
        | w :: ws => (c :: w) :: ws
        | [] => [[c]]
        end
  end.

Definition split (sep : codeunit -> bool) (s : jsstring) : list jsstring :=
  splitFrom sep s false.

Definition jsstring_eqb (s t : jsstring) : bool := bool_decide (s = t).

(** [Array.prototype.join(' ')]. *)
Fixpoint join (l : list jsstring) : jsstring :=
  match l with
  | [] => []
  | [s] => s
  | s :: l' => s ++ 32%N :: join l'
  end.

(** [new Set(array)]: the distinct elements in order of first insertion. *)
Fixpoint newSet (l : list jsstring) (seen : list jsstring) : list jsstring :=
  match l with
  | [] => seen
  | x :: l' => if bool_decide (x ∈ seen) then newSet l' seen else newSet l' (seen ++ [x])
  end.

Definition has (set : list jsstring) (x : jsstring) : bool := bool_decide (x ∈ set).

Example split_example :
  split isSpace (js " star  wars ") = [js ""; js "star"; js "wars"; js ""].
Proof. reflexivity. Qed.

Example toLowerCase_example : toLowerCase (js "Star Wars: IV") = js "star wars: iv".
Proof. reflexivity. Qed.

(** ** Loops, arrays, maps, sorting *)

(** [for (let i = a; i <= b; i++) body]. *)
Definition forUpTo {St : Type} (a b : nat) (body : nat -> St -> St) (st : St) : St :=
  fold_left (fun st i => body i st) (seq a (b + 1 - a)) st.

(** [Math.min] of three counts. *)
Definition min3 (a b c : nat) : nat := Nat.min a (Nat.min b c).

(** [Math.abs(a - b)] on lengths. *)
Definition absDiff (a b : nat) : nat := (a - b) + (b - a).

(** A [Map] from strings to counts, in insertion order. *)
Abbreviation jsmap := (list (jsstring * nat)).

Fixpoint mapGet (m : jsmap) (k : jsstring) : option nat :=
  match m with
  | [] => None
  | (k', v) :: m' => if decide (k' = k) then Some v else mapGet m' k
  end.

Fixpoint mapSet (m : jsmap) (k : jsstring) (v : nat) : jsmap :=
  match m with
  | [] => [(k, v)]
  | (k', v') :: m' => if decide (k' = k) then (k, v) :: m' else (k', v') :: mapSet m' k v
  end.

Definition mapKeys (m : jsmap) : list jsstring := List.map fst m.

(** [Array.prototype.sort(cmp)]: the sort is stable, and with a consistent
    comparator its result is the stable arrangement, which the insertion
    below builds: [x] goes in front of the first [y] with [cmp x y <= 0]. *)
Fixpoint insertBy {A : Type} (cmp : A -> A -> R) (x : A) (l : list A) : list A :=
  match l with
  | [] => [x]
  | y :: l' => if Rle_dec (cmp x y) 0 then x :: y :: l' else y :: insertBy cmp x l'
  end.

Definition sortBy {A : Type} (cmp : A -> A -> R) (l : list A) : list A :=
  foldr (insertBy cmp) [] l.

(** ** Movie records *)

(** Identifiers are numbers or strings, compared with [===]. *)
Inductive MovieId :=
  | NumId (n : Z)
  | StrId (s : jsstring).

#[global] Instance MovieId_eq_dec : EqDecision MovieId.
Proof. solve_decision. Defined.

Record Movie := {
  id : MovieId;
  title : jsstring;
  genre : list jsstring;
  description : jsstring;
  rating : R;
  director : option jsstring
}.

(** [!director]: a missing director and the empty string are falsy. *)
Definition falsy (director : option jsstring) : bool :=
  match director with
  | Some (_ :: _) => false
  | _ => true
  end.

(** [`${movie.description} ${movie.description} ${movie.genre.join(' ')}`] *)
Definition movieText (movie : Movie) : jsstring :=
  description movie ++ 32%N :: description movie ++ 32%N :: join (genre movie).

(** A catalog entry with its [similarityScore]. *)
Record Recommendation := {
  recommended : Movie;
  similarityScore : R
}.

(** The recurrence that both Levenshtein programs tabulate: [editCell s1 s2 i j]
    is the entry for the first [i] code units of [s1] and the first [j] of [s2]. *)
Fixpoint editCell (s1 s2 : jsstring) (i : nat) : nat -> nat :=
  match i with
  | 0 => fun j => j
  | S i' =>
      fix row (j : nat) : nat :=
        match j with
        | 0 => S i'
        | S j' =>
            if decide (s1 !! i' = s2 !! j') then editCell s1 s2 i' j'
            else min3 (editCell s1 s2 i' (S j') + 1) (row j' + 1) (editCell s1 s2 i' j' + 1)
        end
  end.

(** Row [i] of the table, for the columns [0 .. length s2]. *)
Definition rowOf (s1 s2 : jsstring) (i : nat) : list nat :=
  List.map (editCell s1 s2 i) (seq 0 (length s2 + 1)).

(** The inner loop of both programs, seen on the row it writes. *)
Definition fillRow (s1 s2 : jsstring) (i : nat) (prevRow currRow : list nat) : list nat :=
  forUpTo 1 (length s2) (fun j currRow =>
    if decide (s1 !! (i - 1) = s2 !! (j - 1)) then
      <[j := prevRow !!! (j - 1)]> currRow
    else
      <[j := min3 (prevRow !!! j + 1) (currRow !!! (j - 1) + 1)
                  (prevRow !!! (j - 1) + 1)]> currRow) currRow.

(** The matrix once its first row and first column are filled: row 0 is
    complete, and every later row has its width and its first entry. *)
Definition baseCases (s1 s2 : jsstring) (len1 : nat) (dp : list (list nat)) : Prop :=
  length dp = len1 + 1 /\
  dp !! 0 = Some (rowOf s1 s2 0) /\
  forall m, 1 <= m <= len1 ->
    exists r, dp !! m = Some r /\ length r = length s2 + 1 /\ r !! 0 = Some m.

(** ** [js/algorithms.js] *)

Module JsAlgorithms.

Definition jaccardSimilarity (str1 str2 : jsstring) : R :=
  let set1 := newSet (split isSpace (toLowerCase str1)) [] in
  let set2 := newSet (split isSpace (toLowerCase str2)) [] in
  let intersection := newSet (List.filter (has set2) set1) [] in
  let union := newSet (set1 ++ set2) [] in
  if length union =? 0 then 0 else INR (length intersection) / INR (length union).

(** [vector1.reduce((sum, val, i) => sum + val * vector2[i], 0)] *)
Definition dotProductOf (vector1 vector2 : list nat) : nat :=
  fold_left (fun sum '(i, val) => sum + val * (vector2 !!! i)) (imap pair vector1) 0.

Definition cosineSimilarity (str1 str2 : jsstring) : R :=
  let words1 := split isSpace (toLowerCase str1) in
  let words2 := split isSpace (toLowerCase str2) in
  let vocabulary := newSet (words1 ++ words2) [] in
  let vector1 :=
    List.map (fun word => length (List.filter (fun w => bool_decide (w = word)) words1))
             vocabulary in
  let vector2 :=
    List.map (fun word => length (List.filter (fun w => bool_decide (w = word)) words2))
             vocabulary in
  let dotProduct := dotProductOf vector1 vector2 in
  let magnitude1 := sqrt (INR (fold_left (fun sum val => sum + val * val) vector1 0)) in
  let magnitude2 := sqrt (INR (fold_left (fun sum val => sum + val * val) vector2 0)) in
  if Req_dec_T magnitude1 0 then 0
  else if Req_dec_T magnitude2 0 then 0
  else INR dotProduct / (magnitude1 * magnitude2).

Definition levenshteinDistance (str1 str2 : jsstring) : nat :=
  let s1 := toLowerCase str1 in
  let s2 := toLowerCase str2 in
  let len1 := length s1 in
  let len2 := length s2 in
  let dp := replicate (len1 + 1) (replicate (len2 + 1) 0) in
  let dp := forUpTo 0 len1 (fun i dp => <[i := <[0 := i]> (dp !!! i)]> dp) dp in
  let dp := forUpTo 0 len2 (fun j dp => <[0 := <[j := j]> (dp !!! 0)]> dp) dp in
  let dp :=
    forUpTo 1 len1 (fun i dp =>
      forUpTo 1 len2 (fun j dp =>
        if decide (s1 !! (i - 1) = s2 !! (j - 1)) then
          <[i := <[j := (dp !!! (i - 1)) !!! (j - 1)]> (dp !!! i)]> dp
        else
          <[i := <[j := min3 ((dp !!! (i - 1)) !!! j + 1)
                             ((dp !!! i) !!! (j - 1) + 1)
                             ((dp !!! (i - 1)) !!! (j - 1) + 1)]> (dp !!! i)]> dp) dp) dp in
  (dp !!! len1) !!! len2.

Definition levenshteinSimilarity (str1 str2 : jsstring) : R :=
  let distance := levenshteinDistance str1 str2 in
  let maxLength := Nat.max (length str1) (length str2) in
  if maxLength =? 0 then 1 else 1 - INR distance / INR maxLength.

Definition genreSimilarity (genres1 genres2 : list jsstring) : R :=
  if (length genres1 =? 0) || (length genres2 =? 0) then 0
  else
    let set1 := newSet (List.map toLowerCase genres1) [] in
    let set2 := newSet (List.map toLowerCase genres2) [] in
    let intersection := newSet (List.filter (has set2) set1) [] in
    let union := newSet (set1 ++ set2) [] in
    if length union =? 0 then 0 else INR (length intersection) / INR (length union).

Definition ratingSimilarity (rating1 rating2 : R) : R :=
  let difference := Rabs (rating1 - rating2) in
  1 - difference / 10.

Definition directorSimilarity (director1 director2 : option jsstring) : R :=
  if falsy director1 || falsy director2 then 0
  else if bool_decide (toLowerCase (default [] director1) = toLowerCase (default [] director2))
       then 1 else 0.

Definition combinedSimilarity (str1 str2 : jsstring) : R :=
  let jaccard := jaccardSimilarity str1 str2 in
  let cosine := cosineSimilarity str1 str2 in
  let levenshtein := levenshteinSimilarity str1 str2 in
  (cosine * 0.5) + (jaccard * 0.3) + (levenshtein * 0.2).

Definition calculateMovieSimilarity (movie : Movie) (query : jsstring)
    (algorithm : jsstring) (referenceMovie : option Movie) : R :=
  let movieText := movieText movie in
  let textSimilarity :=
    if decide (algorithm = js "jaccard") then jaccardSimilarity movieText query
    else if decide (algorithm = js "cosine") then cosineSimilarity movieText query
    else if decide (algorithm = js "levenshtein") then levenshteinSimilarity movieText query
    else combinedSimilarity movieText query in
  match referenceMovie with
  | Some referenceMovie =>
      let genreScore := genreSimilarity (genre movie) (genre referenceMovie) in
      let ratingScore := ratingSimilarity (rating movie) (rating referenceMovie) in
      let directorScore := directorSimilarity (director movie) (director referenceMovie) in
      (textSimilarity * 0.365) + (genreScore * 0.25) + (ratingScore * 0.35)
      + (directorScore * 0.035)
  | None => textSimilarity
  end.

Definition findClosestMatch (movies : list Movie) (searchTerm : jsstring)
  : option Movie * R :=
  fold_left (fun '(bestMatch, highestSimilarity) movie =>
    let similarity := levenshteinSimilarity (title movie) searchTerm in
    if Rgt_dec similarity highestSimilarity then (Some movie, similarity)
    else (bestMatch, highestSimilarity))
  movies (None, 0%R).

Definition getRecommendations (movies : list Movie) (selectedMovie : Movie)
    (algorithm : jsstring) (topN : nat) : list Recommendation :=
  let referenceText := description selectedMovie ++ 32%N :: join (genre selectedMovie) in
  let recommendations :=
    take topN
      (sortBy (fun a b => (similarityScore b - similarityScore a)%R)
        (List.map (fun movie =>
           {| recommended := movie;
              similarityScore :=
                calculateMovieSimilarity movie referenceText algorithm (Some selectedMovie) |})
           (List.filter (fun movie => negb (bool_decide (id movie = id selectedMovie)))
                        movies))) in
  recommendations.

End JsAlgorithms.

(** ** The algorithms module with preprocessing, search and franchise bonus *)

Module Algorithms.

Definition STOPWORDS : list jsstring :=
  newSet
    [js "the"; js "a"; js "an"; js "and"; js "or"; js "but"; js "in"; js "on";
     js "at"; js "to"; js "for"; js "of"; js "with"; js "by"; js "from";
     js "as"; js "is"; js "was"; js "are"; js "were"; js "been"; js "be";
     js "have"; js "has"; js "had"; js "do"; js "does"; js "did"; js "will";
     js "would"; js "could"; js "should"; js "may"; js "might"; js "must";
     js "can"; js "this"; js "that"; js "these"; js "those"; js "it";
     js "its"; js "his"; js "her"; js "their"; js "our"] [].

(** [/^[a-z]+$/.test(word)] *)
Definition isLowerAlpha (word : jsstring) : bool :=
  negb (length word =? 0) && forallb (fun c => (97 <=? c)%N && (c <=? 122)%N) word.

(** [/^[0-9]+$/.test(w)] *)
Definition isDigits (w : jsstring) : bool :=
  negb (length w =? 0) && forallb (fun c => (48 <=? c)%N && (c <=? 57)%N) w.

(** The result for a text not yet in [preprocessCache]; a cached entry is
    the array computed here on an earlier call with the same text, and no
    caller writes to it (see [preprocessTextCached]). *)
Definition preprocessText (text : jsstring) : list jsstring :=
  List.filter
    (fun word => (2 <? length word) && negb (has STOPWORDS word) && isLowerAlpha word)
    (split isSpace (toLowerCase text)).

(** [preprocessText] with the cache threaded through as state. *)
Definition preprocessTextCached (cache : list (jsstring * list jsstring))
    (text : jsstring) : list jsstring * list (jsstring * list jsstring) :=
  match List.find (fun e => bool_decide (fst e = text)) cache with
  | Some e => (snd e, cache)
  | None =>
      let result := preprocessText text in
      if length cache <? 1000 then (result, cache ++ [(text, result)])
      else (result, cache)
  end.

Definition jaccardSimilarity (str1 str2 : jsstring) : R :=
  let set1 := newSet (preprocessText str1) [] in
  let set2 := newSet (preprocessText str2) [] in
  if (length set1 =? 0) || (length set2 =? 0) then 0
  else
    let intersectionCount :=
      fold_left (fun count item => if has set2 item then count + 1 else count) set1 0 in
    let unionSize := (Z.of_nat (length set1) + Z.of_nat (length set2)
                      - Z.of_nat intersectionCount)%Z in
    if (unionSize =? 0)%Z then 0 else INR intersectionCount / IZR unionSize.

(** [(freq.get(word) || 0)] *)
Definition getOr0 (freq : jsmap) (word : jsstring) : nat := default 0 (mapGet freq word).

Definition frequencies (words : list jsstring) : jsmap :=
  fold_left (fun freq word => mapSet freq word (getOr0 freq word + 1)) words [].

Definition cosineSimilarity (str1 str2 : jsstring) : R :=
  let words1 := preprocessText str1 in
  let words2 := preprocessText str2 in
  if (length words1 =? 0) || (length words2 =? 0) then 0
  else
    let freq1 := frequencies words1 in
    let freq2 := frequencies words2 in
    let allWords := newSet (mapKeys freq1 ++ mapKeys freq2) [] in
    let '(dotProduct, magnitude1, magnitude2) :=
      fold_left (fun '(dotProduct, magnitude1, magnitude2) word =>
                   let count1 := getOr0 freq1 word in
                   let count2 := getOr0 freq2 word in
                   (dotProduct + count1 * count2,
                    magnitude1 + count1 * count1,
                    magnitude2 + count2 * count2))
                allWords (0, 0, 0) in
    let magnitude1 := sqrt (INR magnitude1) in
    let magnitude2 := sqrt (INR magnitude2) in
    if Req_dec_T magnitude1 0 then 0
    else if Req_dec_T magnitude2 0 then 0
    else INR dotProduct / (magnitude1 * magnitude2).

(** The guard [lengthDiff > Math.max(len1, len2) * 0.5] compares an integer
    with half an integer, and is written here without the division. *)
Definition levenshteinDistance (str1 str2 : jsstring) : nat :=
  let s1 := toLowerCase str1 in
  let s2 := toLowerCase str2 in
  let len1 := length s1 in
  let len2 := length s2 in
  let lengthDiff := absDiff len1 len2 in
  if Nat.max len1 len2 <? 2 * lengthDiff then Nat.max len1 len2
  else
    let prevRow := replicate (len2 + 1) 0 in
    let currRow := replicate (len2 + 1) 0 in
    let prevRow := forUpTo 0 len2 (fun j prevRow => <[j := j]> prevRow) prevRow in
    let '(prevRow, currRow) :=
      forUpTo 1 len1 (fun i '(prevRow, currRow) =>
        let currRow := <[0 := i]> currRow in
        let currRow :=
          forUpTo 1 len2 (fun j currRow =>
            if decide (s1 !! (i - 1) = s2 !! (j - 1)) then
              <[j := prevRow !!! (j - 1)]> currRow
            else
              <[j := min3 (prevRow !!! j + 1)
                          (currRow !!! (j - 1) + 1)
                          (prevRow !!! (j - 1) + 1)]> currRow) currRow in
        (currRow, prevRow)) (prevRow, currRow) in
    prevRow !!! len2.

Definition levenshteinSimilarity (str1 str2 : jsstring) : R :=
  let distance := levenshteinDistance str1 str2 in
  let maxLength := Nat.max (length str1) (length str2) in
  if maxLength =? 0 then 1 else 1 - INR distance / INR maxLength.

Definition genreSimilarity (genres1 genres2 : list jsstring) : R :=
  if (length genres1 =? 0) || (length genres2 =? 0) then 0
  else
    let set1 := newSet (List.map toLowerCase genres1) [] in
    let set2 := newSet (List.map toLowerCase genres2) [] in
    let intersection := newSet (List.filter (has set2) set1) [] in
    let union := newSet (set1 ++ set2) [] in
    if length union =? 0 then 0 else INR (length intersection) / INR (length union).

Definition ratingSimilarity (rating1 rating2 : R) : R :=
  let difference := Rabs (rating1 - rating2) in
  1 - difference / 10.

Definition directorSimilarity (director1 director2 : option jsstring) : R :=
  if falsy director1 || falsy director2 then 0
  else if bool_decide (toLowerCase (default [] director1) = toLowerCase (default [] director2))
       then 1 else 0.

Definition combinedSimilarity (str1 str2 : jsstring) : R :=
  let jaccard := jaccardSimilarity str1 str2 in
  let cosine := cosineSimilarity str1 str2 in
  let levenshtein := levenshteinSimilarity str1 str2 in
  (cosine * 0.6) + (jaccard * 0.3) + (levenshtein * 0.1).

Definition calculateMovieSimilarity (movie : Movie) (query : jsstring)
    (algorithm : jsstring) (referenceMovie : option Movie) : R :=
  let movieText := movieText movie in
  let textSimilarity :=
    if decide (algorithm = js "jaccard") then jaccardSimilarity movieText query
    else if decide (algorithm = js "cosine") then cosineSimilarity movieText query
    else if decide (algorithm = js "levenshtein") then levenshteinSimilarity movieText query
    else combinedSimilarity movieText query in
  match referenceMovie with
  | Some referenceMovie =>
      let genreScore := genreSimilarity (genre movie) (genre referenceMovie) in
      let ratingScore := ratingSimilarity (rating movie) (rating referenceMovie) in
      let directorScore := directorSimilarity (director movie) (director referenceMovie) in
      (textSimilarity * 0.365) + (genreScore * 0.25) + (ratingScore * 0.35)
      + (directorScore * 0.035)
  | None => textSimilarity
  end.

(** The result object [{ movie: bestMatch, similarity: highestSimilarity }]. *)
Definition findClosestMatch (movies : list Movie) (searchTerm : jsstring)
  : option Movie * R :=
  let searchLower := trim (toLowerCase searchTerm) in
  fold_left (fun '(bestMatch, highestSimilarity) movie =>
    let titleLower := toLowerCase (title movie) in
    let similarity : R :=
      if decide (titleLower = searchLower) then 1.0%R
      else if includes titleLower searchLower then
        (0.85 + (INR (length searchLower) / INR (length titleLower)) * 0.15)%R
      else if includes searchLower titleLower then 0.80%R
      else
        let searchWords :=
          newSet (List.filter (fun w => 2 <? length w) (split isSpace searchLower)) [] in
        let titleWords :=
          newSet (List.filter (fun w => 2 <? length w) (split isSpace titleLower)) [] in
        if (0 <? length searchWords) && (0 <? length titleWords) then
          let matchingWords :=
            fold_left (fun count word => if has titleWords word then count + 1 else count)
                      searchWords 0 in
          let wordOverlap :=
            (INR matchingWords / INR (Nat.max (length searchWords) (length titleWords)))%R in
          let levenshtein := levenshteinSimilarity (title movie) searchTerm in
          ((wordOverlap * 0.7) + (levenshtein * 0.3))%R
        else levenshteinSimilarity (title movie) searchTerm in
    if Rgt_dec similarity highestSimilarity then (Some movie, similarity)
    else (bestMatch, highestSimilarity))
  movies (None, 0%R).

(** The score that the loop bodies of [findClosestMatch] and [searchMovies]
    give to one catalog entry. *)
Definition titleSimilarity (searchTerm : jsstring) (movie : Movie) : R :=
  let searchLower := trim (toLowerCase searchTerm) in
  let titleLower := toLowerCase (title movie) in
  if decide (titleLower = searchLower) then 1.0%R
  else if includes titleLower searchLower then
    (0.85 + (INR (length searchLower) / INR (length titleLower)) * 0.15)%R
  else if includes searchLower titleLower then 0.80%R
  else
    let searchWords :=
      newSet (List.filter (fun w => 2 <? length w) (split isSpace searchLower)) [] in
    let titleWords :=
      newSet (List.filter (fun w => 2 <? length w) (split isSpace titleLower)) [] in
    if (0 <? length searchWords) && (0 <? length titleWords) then
      let matchingWords :=
        fold_left (fun count word => if has titleWords word then count + 1 else count)
                  searchWords 0 in
      let wordOverlap :=
        (INR matchingWords / INR (Nat.max (length searchWords) (length titleWords)))%R in
      let levenshtein := levenshteinSimilarity (title movie) searchTerm in
      ((wordOverlap * 0.7) + (levenshtein * 0.3))%R
    else levenshteinSimilarity (title movie) searchTerm.

(** A catalog entry with the scores [searchMovies] adds to it. *)
Record SearchResult := {
  found : Movie;
  searchScore : R;
  titleScore : R;
  contentScore : R
}.

Definition searchMovies (movies : list Movie) (searchTerm : jsstring)
    (maxResults : nat) : list SearchResult :=
  let searchLower := trim (toLowerCase searchTerm) in
  take maxResults
    (sortBy (fun a b => (searchScore b - searchScore a)%R)
      (List.filter (fun m => if Rgt_dec (searchScore m) 0.1%R then true else false)
        (List.map (fun movie =>
          let titleLower := toLowerCase (title movie) in
          let titleScore : R :=
            if decide (titleLower = searchLower) then 1.0%R
            else if includes titleLower searchLower then
              (0.85 + (INR (length searchLower) / INR (length titleLower)) * 0.15)%R
            else if includes searchLower titleLower then 0.80%R
            else
              let searchWords :=
                newSet (List.filter (fun w => 2 <? length w) (split isSpace searchLower)) [] in
              let titleWords :=
                newSet (List.filter (fun w => 2 <? length w) (split isSpace titleLower)) [] in
              if (0 <? length searchWords) && (0 <? length titleWords) then
                let matchingWords :=
                  fold_left (fun count word => if has titleWords word then count + 1 else count)
                            searchWords 0 in
                let wordOverlap :=
                  (INR matchingWords / INR (Nat.max (length searchWords) (length titleWords)))%R in
                let levenshtein := levenshteinSimilarity (title movie) searchTerm in
                ((wordOverlap * 0.7) + (levenshtein * 0.3))%R
              else levenshteinSimilarity (title movie) searchTerm in
          let contentText := description movie ++ 32%N :: join (genre movie) in
          let contentScore := combinedSimilarity contentText searchTerm in
          let overallScore := ((titleScore * 0.80) + (contentScore * 0.20))%R in
          {| found := movie;
             searchScore := overallScore;
             titleScore := titleScore;
             contentScore := contentScore |})
        movies))).

Definition getRecommendations (movies : list Movie) (selectedMovie : Movie)
    (algorithm : jsstring) (topN : nat) : list Recommendation :=
  let referenceText := description selectedMovie ++ 32%N :: join (genre selectedMovie) in
  let refTitleWords :=
    List.filter
      (fun w => (3 <=? length w) && negb (isDigits w)
                && negb (bool_decide
                           (w ∈ [js "the"; js "and"; js "part"; js "vol"; js "volume"])))
      (split (fun c => isSpace c || (c =? 58)%N) (toLowerCase (title selectedMovie))) in
  let sameGenreMovies :=
    List.filter
      (fun movie =>
         if decide (id movie = id selectedMovie) then false
         else existsb (fun g => bool_decide (g ∈ genre selectedMovie)) (genre movie))
      movies in
  let candidateMovies :=
    if topN * 2 <=? length sameGenreMovies then sameGenreMovies
    else List.filter (fun movie => negb (bool_decide (id movie = id selectedMovie))) movies in
  let recommendations :=
    take topN
      (sortBy (fun a b => (similarityScore b - similarityScore a)%R)
        (List.map (fun movie =>
          let baseScore :=
            calculateMovieSimilarity movie referenceText algorithm (Some selectedMovie) in
          let franchiseBonus : R :=
            if 0 <? length refTitleWords then
              let movieTitleLower := toLowerCase (title movie) in
              let matchingWords :=
                fold_left (fun count word =>
                             if includes movieTitleLower word then count + 1 else count)
                          refTitleWords 0 in
              if 0 <? matchingWords then
                let matchRatio := (INR matchingWords / INR (length refTitleWords))%R in
                (matchRatio * 0.25)%R
              else 0%R
            else 0%R in
          {| recommended := movie; similarityScore := (baseScore + franchiseBonus)%R |})
        candidateMovies)) in
  recommendations.

End Algorithms.

(** ** A small catalog for the examples *)

Definition starWars : Movie := {|
  id := NumId 1;
  title := js "Star Wars";
  genre := [js "Sci-Fi"; js "Adventure"];
  description := js "A farm boy joins rebels fighting an evil galactic empire";
  rating := 8.6;
  director := Some (js "George Lucas")
|}.

Definition alien : Movie := {|
  id := NumId 2;
  title := js "Alien";
  genre := [js "Sci-Fi"; js "Horror"];
  description := js "The crew of a commercial spaceship meets a deadly creature";
  rating := 8.5;
  director := Some (js "Ridley Scott")
|}.

(** An entry whose title ends in a space. *)
Definition upPadded : Movie := {|
  id := StrId (js "tt1049413");
  title := js "Up ";
  genre := [js "Animation"];
  description := js "An old man flies his house to South America";
  rating := 8.3;
  director := None
|}.

(** ** Inputs in the domain the scores are written for *)

(** A string without U+0130, whose lower-casing keeps its length. *)
Definition plain (s : jsstring) : Prop := Forall (fun c => c <> 304%N) s.

(** A movie with a rating between 0 and 10 and plain description and
    genre labels. *)
Definition inContract (movie : Movie) : Prop :=
  (0 <= rating movie <= 10)%R /\
  plain (description movie) /\
  Forall plain (genre movie).


(** ** The application: text truncation and the search handler *)

(** [text.substring(0, maxLength) + '...'] for a text longer than
    [maxLength]. *)
Definition truncateText (text : jsstring) (maxLength : nat) : jsstring :=
  if length text <=? maxLength then text
  else take maxLength text ++ js "...".

(** What [handleSearch] leaves on the page when rendering does not throw:
    the error for an empty input, the selected movie with its
    recommendations, or the error for a search without match. *)
Inductive SearchOutcome :=
  | PleaseEnterTitle
  | Selected (movie : Movie)
  | NoMatchFound (searchTerm : jsstring).

(** [handleSearch], with the content of the input box and the answers of
    the two network calls as arguments: [fetchFromOMDb title] is the movie or
    [null], [searchOMDb query] the list of movies found. *)
Definition handleSearch (inputValue : jsstring) (useOmdbApi : bool)
    (moviesData : list Movie)
    (fetchFromOMDb : jsstring -> option Movie)
    (searchOMDb : jsstring -> list Movie) : SearchOutcome :=
  let searchTerm := trim inputValue in
  if length searchTerm =? 0 then PleaseEnterTitle
  else
    let movie : option Movie :=
      if useOmdbApi then
        match fetchFromOMDb searchTerm with
        | Some movie => Some movie
        | None =>
            match searchOMDb searchTerm with
            | first :: _ => Some first
            | [] => None
            end
        end
      else None in
    let movie : option Movie :=
      match movie with
      | Some movie => Some movie
      | None =>
          if 0 <? length moviesData then
            let '(localMovie, similarity) :=
              Algorithms.findClosestMatch moviesData searchTerm in
            match localMovie with
            | Some localMovie =>
                if Rgt_dec similarity 0.3%R then Some localMovie else None
            | None => None
            end
          else None
      end in
    match movie with
    | Some movie => Selected movie
    | None => NoMatchFound searchTerm
    end.

(** ** The proxy endpoints *)

(** The characters that [encodeURIComponent] leaves as they are:
    letters, digits and [- _ . ! ~ * ' ( )]. *)
Definition isUriUnescaped (c : codeunit) : bool :=
  ((65 <=? c) && (c <=? 90) || (97 <=? c) && (c <=? 122) || (48 <=? c) && (c <=? 57)
   || (c =? 45) || (c =? 95) || (c =? 46) || (c =? 33) || (c =? 126) || (c =? 42)
   || (c =? 39) || (c =? 40) || (c =? 41))%N.

Definition hexDigit (n : N) : codeunit :=
  (if n <? 10 then 48 + n else 55 + n)%N.

(** ["%XX"] for one octet. *)
Definition percentEncode (octet : N) : jsstring :=
  [37%N; hexDigit (octet / 16); hexDigit (octet mod 16)].

(** The UTF-8 octets of a code point. *)
Definition utf8 (cp : N) : list N :=
  (if cp <? 128 then [cp]
   else if cp <? 2048 then [192 + cp / 64; 128 + cp mod 64]
   else if cp <? 65536 then [224 + cp / 4096; 128 + (cp / 64) mod 64; 128 + cp mod 64]
   else [240 + cp / 262144; 128 + (cp / 4096) mod 64; 128 + (cp / 64) mod 64;
         128 + cp mod 64])%N.

Definition isLeadSurrogate (c : codeunit) : bool := ((55296 <=? c) && (c <=? 56319))%N.
Definition isTrailSurrogate (c : codeunit) : bool := ((56320 <=? c) && (c <=? 57343))%N.

(** [encodeURIComponent]; [None] is the [URIError] thrown for a surrogate
    without its pair. *)
Fixpoint encodeURIComponent (s : jsstring) : option jsstring :=
  match s with
  | [] => Some []
  | c :: s' =>
      if isUriUnescaped c then
        match encodeURIComponent s' with
        | Some rest => Some (c :: rest)
        | None => None
        end
      else if isTrailSurrogate c then None
      else if isLeadSurrogate c then
        match s' with
        | d :: s'' =>
            if isTrailSurrogate d then
              match encodeURIComponent s'' with
              | Some rest =>
                  Some (concat (List.map percentEncode
                                  (utf8 ((c - 55296) * 1024 + (d - 56320) + 65536)%N))
                        ++ rest)
              | None => None
              end
            else None
        | [] => None
        end
      else
        match encodeURIComponent s' with
        | Some rest => Some (concat (List.map percentEncode (utf8 c)) ++ rest)
        | None => None
        end
  end.

(** The body of a response: [{ error: ... }] or the data of the upstream. *)
Inductive ResponseBody (Data : Type) :=
  | ErrorMessage (error : jsstring)
  | Upstream (data : Data).
Arguments ErrorMessage {Data} error.
Arguments Upstream {Data} data.

Record HttpResponse (Data : Type) := {
  statusCode : nat;
  responseBody : ResponseBody Data
}.
Arguments statusCode {Data} _.
Arguments responseBody {Data} _.

Definition OMDB_BASE_URL : jsstring := js "https://www.omdbapi.com/".

(** The handlers take the API key of the environment, the query parameters
    (each absent or a string) and the upstream: [fetchJson url] is the parsed
    answer to [fetch(url)], or [None] when fetching or parsing throws. *)
Module ApiMovie.

Definition handler {Data : Type} (API_KEY : option jsstring)
    (title year : option jsstring) (fetchJson : jsstring -> option Data)
  : HttpResponse Data :=
  if falsy title then
    {| statusCode := 400; responseBody := ErrorMessage (js "Title parameter is required") |}
  else if falsy API_KEY then
    {| statusCode := 500; responseBody := ErrorMessage (js "API key not configured") |}
  else
    match encodeURIComponent (default [] title) with
    | None =>
        {| statusCode := 500; responseBody := ErrorMessage (js "Failed to fetch movie data") |}
    | Some encoded =>
        let url := OMDB_BASE_URL ++ js "?apikey=" ++ default [] API_KEY ++ js "&t="
                   ++ encoded ++ js "&type=movie" in
        let url := if falsy year then url else url ++ js "&y=" ++ default [] year in
        match fetchJson url with
        | Some data => {| statusCode := 200; responseBody := Upstream data |}
        | None =>
            {| statusCode := 500;
               responseBody := ErrorMessage (js "Failed to fetch movie data") |}
        end
    end.

End ApiMovie.

Module ApiSearch.

Definition handler {Data : Type} (API_KEY : option jsstring)
    (query : option jsstring) (fetchJson : jsstring -> option Data)
  : HttpResponse Data :=
  if falsy query then
    {| statusCode := 400; responseBody := ErrorMessage (js "Query parameter is required") |}
  else if falsy API_KEY then
    {| statusCode := 500; responseBody := ErrorMessage (js "API key not configured") |}
  else
    match encodeURIComponent (default [] query) with
    | None =>
        {| statusCode := 500; responseBody := ErrorMessage (js "Failed to search movies") |}
    | Some encoded =>
        let url := OMDB_BASE_URL ++ js "?apikey=" ++ default [] API_KEY ++ js "&s="
                   ++ encoded ++ js "&type=movie" in
        match fetchJson url with
        | Some data => {| statusCode := 200; responseBody := Upstream data |}
        | None =>
            {| statusCode := 500; responseBody := ErrorMessage (js "Failed to search movies") |}
        end
    end.

End ApiSearch.

(** [server.js]: the same two endpoints, with the key read when the
    server starts. *)
Module Server.

Definition apiMovie {Data : Type} (OMDB_API_KEY : option jsstring)
    (title year : option jsstring) (fetchJson : jsstring -> option Data)
  : HttpResponse Data :=
  if falsy title then
    {| statusCode := 400; responseBody := ErrorMessage (js "Title parameter is required") |}
  else if falsy OMDB_API_KEY then
    {| statusCode := 500; responseBody := ErrorMessage (js "API key not configured") |}
  else
    match encodeURIComponent (default [] title) with
    | None =>
        {| statusCode := 500; responseBody := ErrorMessage (js "Failed to fetch movie data") |}
    | Some encoded =>
        let url := OMDB_BASE_URL ++ js "?apikey=" ++ default [] OMDB_API_KEY ++ js "&t="
                   ++ encoded ++ js "&type=movie" in
        let url := if falsy year then url else url ++ js "&y=" ++ default [] year in
        match fetchJson url with
        | Some data => {| statusCode := 200; responseBody := Upstream data |}
        | None =>
            {| statusCode := 500;
               responseBody := ErrorMessage (js "Failed to fetch movie data") |}
        end
    end.

Definition apiSearch {Data : Type} (OMDB_API_KEY : option jsstring)
    (query : option jsstring) (fetchJson : jsstring -> option Data)
  : HttpResponse Data :=
  if falsy query then
    {| statusCode := 400; responseBody := ErrorMessage (js "Query parameter is required") |}
  else if falsy OMDB_API_KEY then
    {| statusCode := 500; responseBody := ErrorMessage (js "API key not configured") |}
  else
    match encodeURIComponent (default [] query) with
    | None =>
        {| statusCode := 500; responseBody := ErrorMessage (js "Failed to search movies") |}
    | Some encoded =>
        let url := OMDB_BASE_URL ++ js "?apikey=" ++ default [] OMDB_API_KEY ++ js "&s="
                   ++ encoded ++ js "&type=movie" in
        match fetchJson url with
        | Some data => {| statusCode := 200; responseBody := Upstream data |}
        | None =>
            {| statusCode := 500; responseBody := ErrorMessage (js "Failed to search movies") |}
        end
    end.

End Server.

(** A code unit that can stand in a URL parameter without ending it: one
    that [encodeURIComponent] leaves, or the percent sign of an escape. *)
Definition uriSafe (c : codeunit) : Prop := isUriUnescaped c = true \/ c = 37%N.

(** * Properties *)

(** ** Loops *)

Lemma fold_seq_invariant {St : Type} (I : nat -> St -> Prop) (body : nat -> St -> St) :
  forall n a st,
    I a st ->
    (forall k st', a <= k < a + n -> I k st' -> I (k + 1) (body k st')) ->
    I (a + n) (fold_left (fun st i => body i st) (seq a n) st).
Proof.
  induction n as [|n IH]; intros a st H0 Hstep; simpl.
  - now rewrite Nat.add_0_r.
  - replace (a + S n) with (S a + n) by lia.
    apply IH.
    + replace (S a) with (a + 1) by lia. apply Hstep; [lia | exact H0].
    + intros k st' Hk. apply Hstep. lia.
Qed.

Lemma forUpTo_invariant {St : Type} (I : nat -> St -> Prop) a b body (st : St) :
  a <= b + 1 ->
  I a st ->
  (forall k st', a <= k <= b -> I k st' -> I (k + 1) (body k st')) ->
  I (b + 1) (forUpTo a b body st).
Proof.
  intros Hab H0 Hstep. unfold forUpTo.
  pose proof (fold_seq_invariant I body (b + 1 - a) a st H0) as Hloop.
  replace (a + (b + 1 - a)) with (b + 1) in Hloop by lia.
  apply Hloop. intros k st' Hk. apply Hstep. lia.
Qed.

(** ** The edit-distance recurrence *)

Section Recurrence.
Variables s1 s2 : jsstring.

Let len2 := length s2.

Lemma editCell_zero_l j : editCell s1 s2 0 j = j.
Proof. reflexivity. Qed.

Lemma editCell_zero_r i : editCell s1 s2 i 0 = i.
Proof. destruct i; reflexivity. Qed.

Lemma editCell_succ i j :
  editCell s1 s2 (S i) (S j) =
  if decide (s1 !! i = s2 !! j) then editCell s1 s2 i j
  else min3 (editCell s1 s2 i (S j) + 1) (editCell s1 s2 (S i) j + 1)
            (editCell s1 s2 i j + 1).
Proof. reflexivity. Qed.

Lemma length_rowOf i : length (rowOf s1 s2 i) = len2 + 1.
Proof. unfold rowOf. now rewrite length_map, length_seq. Qed.

Lemma rowOf_lookup i j : j < len2 + 1 -> rowOf s1 s2 i !! j = Some (editCell s1 s2 i j).
Proof.
  intros Hj. unfold rowOf.
  rewrite list_lookup_fmap, lookup_seq_lt by exact Hj. reflexivity.
Qed.

Lemma rowOf_lookup_total i j : j < len2 + 1 -> rowOf s1 s2 i !!! j = editCell s1 s2 i j.
Proof. intros Hj. apply list_lookup_total_correct, rowOf_lookup, Hj. Qed.

Lemma rowOf_intro i (row : list nat) :
  length row = len2 + 1 ->
  (forall j, j < len2 + 1 -> row !! j = Some (editCell s1 s2 i j)) ->
  row = rowOf s1 s2 i.
Proof.
  intros Hlen Hrow. apply list_eq. intros j.
  destruct (decide (j < len2 + 1)) as [Hj|Hj].
  - now rewrite Hrow, rowOf_lookup.
  - rewrite !lookup_ge_None_2; [reflexivity | rewrite length_rowOf; lia | lia].
Qed.

Lemma fillRow_correct i (currRow : list nat) :
  length currRow = len2 + 1 ->
  currRow !! 0 = Some (S i) ->
  fillRow s1 s2 (S i) (rowOf s1 s2 i) currRow = rowOf s1 s2 (S i).
Proof.
  intros Hlen H0. unfold fillRow.
  set (I := fun (k : nat) (row : list nat) =>
              length row = len2 + 1 /\
              forall m, m < k -> row !! m = Some (editCell s1 s2 (S i) m)).
  match goal with |- ?loop = _ => assert (HI : I (len2 + 1) loop) end.
  { apply forUpTo_invariant; [lia| |].
    - split; [exact Hlen|]. intros m Hm. replace m with 0 by lia.
      now rewrite editCell_zero_r.
    - intros k row Hk [Hl Hrow].
      destruct k as [|k']; [lia|].
      replace (S i - 1) with i by lia. replace (S k' - 1) with k' by lia.
      assert (Hprev : row !!! k' = editCell s1 s2 (S i) k').
      { apply list_lookup_total_correct, Hrow. lia. }
      rewrite !rowOf_lookup_total, Hprev by lia.
      assert (Hnew : forall v : nat,
                 v = editCell s1 s2 (S i) (S k') -> I (S k' + 1) (<[S k' := v]> row)).
      { intros v ->. split; [now rewrite length_insert|].
        intros m Hm. destruct (decide (m = S k')) as [->|Hne].
        - rewrite list_lookup_insert_eq by lia. reflexivity.
        - rewrite list_lookup_insert_ne by lia. apply Hrow. lia. }
      rewrite editCell_succ in Hnew.
      destruct (decide (s1 !! i = s2 !! k')); apply Hnew; reflexivity. }
  destruct HI as [Hl Hrow]. apply rowOf_intro; assumption.
Qed.

(** The two-row program: after the pass for row [i], [prevRow] is row [i]. *)
Lemma two_rows_correct (len1 : nat) (prevRow currRow : list nat) :
  prevRow = rowOf s1 s2 0 ->
  length currRow = len2 + 1 ->
  fst (forUpTo 1 len1 (fun i '(prevRow, currRow) =>
         let currRow := <[0 := i]> currRow in
         let currRow := fillRow s1 s2 i prevRow currRow in
         (currRow, prevRow)) (prevRow, currRow)) = rowOf s1 s2 len1.
Proof.
  intros Hprev Hcurr.
  set (I := fun (k : nat) (st : list nat * list nat) =>
              fst st = rowOf s1 s2 (k - 1) /\ length (snd st) = len2 + 1).
  match goal with |- fst ?loop = _ => assert (HI : I (len1 + 1) loop) end.
  { apply forUpTo_invariant; [lia| |].
    - split; simpl; assumption.
    - intros k [p c] Hk [Hp Hc]. simpl in Hp, Hc. subst p.
      destruct k as [|k']; [lia|]. replace (S k' - 1) with k' by lia.
      split; cbn [fst snd].
      + replace (S k' + 1 - 1) with (S k') by lia.
        apply fillRow_correct.
        * now rewrite length_insert.
        * apply list_lookup_insert_eq. lia.
      + apply length_rowOf. }
  destruct HI as [HI _]. now replace (len1 + 1 - 1) with len1 in HI by lia.
Qed.

Lemma initial_row :
  forUpTo 0 len2 (fun j prevRow => <[j := j]> prevRow) (replicate (len2 + 1) 0) = rowOf s1 s2 0.
Proof.
  set (I := fun (k : nat) (row : list nat) =>
              length row = len2 + 1 /\ forall m, m < k -> row !! m = Some m).
  match goal with |- ?loop = _ => assert (HI : I (len2 + 1) loop) end.
  { apply forUpTo_invariant; [lia| |].
    - split; [apply length_replicate | lia].
    - intros k row Hk [Hl Hrow]. split; [now rewrite length_insert|].
      intros m Hm. destruct (decide (m = k)) as [->|Hne].
      + apply list_lookup_insert_eq. lia.
      + rewrite list_lookup_insert_ne by lia. apply Hrow. lia. }
  destruct HI as [Hl Hrow]. apply rowOf_intro; [exact Hl|].
  intros j Hj. rewrite editCell_zero_l. now apply Hrow.
Qed.
End Recurrence.

Section Matrix.
Variables s1 s2 : jsstring.

Let len2 := length s2.

(** Filling row [i] of the matrix is [fillRow] on that row. *)
Lemma matrix_row_loop (i : nat) (prev : list nat) (js : list nat) :
  forall (dp : list (list nat)) (curr : list nat),
    1 <= i ->
    dp !! (i - 1) = Some prev ->
    dp !! i = Some curr ->
    fold_left (fun dp j =>
      if decide (s1 !! (i - 1) = s2 !! (j - 1)) then
        <[i := <[j := (dp !!! (i - 1)) !!! (j - 1)]> (dp !!! i)]> dp
      else
        <[i := <[j := min3 ((dp !!! (i - 1)) !!! j + 1)
                           ((dp !!! i) !!! (j - 1) + 1)
                           ((dp !!! (i - 1)) !!! (j - 1) + 1)]> (dp !!! i)]> dp) js dp
    = <[i := fold_left (fun currRow j =>
               if decide (s1 !! (i - 1) = s2 !! (j - 1)) then
                 <[j := prev !!! (j - 1)]> currRow
               else
                 <[j := min3 (prev !!! j + 1) (currRow !!! (j - 1) + 1)
                             (prev !!! (j - 1) + 1)]> currRow) js curr]> dp.
Proof.
  induction js as [|j js IH]; intros dp curr Hi Hprev Hcurr; simpl.
  - symmetry. now apply list_insert_id.
  - rewrite (list_lookup_total_correct _ _ _ Hprev).
    rewrite (list_lookup_total_correct _ _ _ Hcurr).
    pose proof (lookup_lt_Some _ _ _ Hcurr) as Hlt.
    match goal with
    | |- fold_left ?f js (if ?c then <[i := ?a]> dp else <[i := ?b]> dp) = _ =>
        replace (if c then <[i := a]> dp else <[i := b]> dp)
          with (<[i := if c then a else b]> dp) by (destruct c; reflexivity);
        rewrite (IH (<[i := if c then a else b]> dp) (if c then a else b) Hi)
    end.
    + rewrite list_insert_insert_eq. reflexivity.
    + rewrite list_lookup_insert_ne by lia. exact Hprev.
    + apply list_lookup_insert_eq. exact Hlt.
Qed.

Lemma first_column (len1 : nat) :
  let dp := forUpTo 0 len1 (fun i dp => <[i := <[0 := i]> (dp !!! i)]> dp)
              (replicate (len1 + 1) (replicate (len2 + 1) 0)) in
  length dp = len1 + 1 /\
  forall m, m <= len1 ->
    exists r, dp !! m = Some r /\ length r = len2 + 1 /\ r !! 0 = Some m.
Proof.
  set (I := fun (k : nat) (dp : list (list nat)) =>
    length dp = len1 + 1 /\
    forall m, m <= len1 ->
      exists r, dp !! m = Some r /\ length r = len2 + 1 /\ (m < k -> r !! 0 = Some m)).
  intros dp.
  assert (HI : I (len1 + 1) dp).
  { apply forUpTo_invariant; [lia| |].
    - split; [apply length_replicate|]. intros m Hm.
      exists (replicate (len2 + 1) 0). split; [apply lookup_replicate_2; lia|].
      split; [apply length_replicate | lia].
    - intros k dp' Hk [Hl Hrows]. split; [now rewrite length_insert|].
      intros m Hm. destruct (Hrows m Hm) as (r & Hr & Hlr & H0).
      destruct (decide (m = k)) as [->|Hne].
      + rewrite (list_lookup_total_correct _ _ _ Hr).
        exists (<[0 := k]> r). split; [apply list_lookup_insert_eq; lia|].
        split; [now rewrite length_insert|].
        intros _. apply list_lookup_insert_eq. lia.
      + exists r. rewrite list_lookup_insert_ne by lia.
        split; [exact Hr|]. split; [exact Hlr|]. intros Hlt. apply H0. lia. }
  destruct HI as [Hl Hrows]. split; [exact Hl|].
  intros m Hm. destruct (Hrows m Hm) as (r & Hr & Hlr & H0).
  exists r. split; [exact Hr|]. split; [exact Hlr|]. apply H0. lia.
Qed.

Lemma first_row (len1 : nat) (dp : list (list nat)) :
  length dp = len1 + 1 ->
  (forall m, m <= len1 ->
     exists r, dp !! m = Some r /\ length r = len2 + 1 /\ r !! 0 = Some m) ->
  baseCases s1 s2 len1 (forUpTo 0 len2 (fun j dp => <[0 := <[j := j]> (dp !!! 0)]> dp) dp).
Proof.
  intros Hl Hrows.
  set (I := fun (k : nat) (dp : list (list nat)) =>
    length dp = len1 + 1 /\
    (exists r0, dp !! 0 = Some r0 /\ length r0 = len2 + 1 /\
                forall j, j < k -> r0 !! j = Some j) /\
    forall m, 1 <= m <= len1 ->
      exists r, dp !! m = Some r /\ length r = len2 + 1 /\ r !! 0 = Some m).
  match goal with |- baseCases _ _ _ ?loop => assert (HI : I (len2 + 1) loop) end.
  { apply forUpTo_invariant; [lia| |].
    - split; [exact Hl|]. split.
      + destruct (Hrows 0 ltac:(lia)) as (r & Hr & Hlr & H0).
        exists r. split; [exact Hr|]. split; [exact Hlr|]. lia.
      + intros m Hm. apply Hrows. lia.
    - intros k dp' Hk (Hl' & (r0 & Hr0 & Hlr0 & Hj) & Hrest).
      split; [now rewrite length_insert|]. split.
      + rewrite (list_lookup_total_correct _ _ _ Hr0).
        exists (<[k := k]> r0). split; [apply list_lookup_insert_eq; lia|].
        split; [now rewrite length_insert|].
        intros j Hjk. destruct (decide (j = k)) as [->|Hne].
        * apply list_lookup_insert_eq. lia.
        * rewrite list_lookup_insert_ne by lia. apply Hj. lia.
      + intros m Hm. rewrite list_lookup_insert_ne by lia. now apply Hrest. }
  destruct HI as (Hl' & (r0 & Hr0 & Hlr0 & Hj) & Hrest).
  split; [exact Hl'|]. split; [|exact Hrest].
  rewrite Hr0. f_equal. apply rowOf_intro; [exact Hlr0|].
  intros j Hjl. rewrite editCell_zero_l. now apply Hj.
Qed.

(** The main loop of the matrix program completes the rows in order. *)
Lemma matrix_correct (len1 : nat) (dp : list (list nat)) :
  baseCases s1 s2 len1 dp ->
  forUpTo 1 len1 (fun i dp =>
    forUpTo 1 len2 (fun j dp =>
      if decide (s1 !! (i - 1) = s2 !! (j - 1)) then
        <[i := <[j := (dp !!! (i - 1)) !!! (j - 1)]> (dp !!! i)]> dp
      else
        <[i := <[j := min3 ((dp !!! (i - 1)) !!! j + 1)
                           ((dp !!! i) !!! (j - 1) + 1)
                           ((dp !!! (i - 1)) !!! (j - 1) + 1)]> (dp !!! i)]> dp) dp) dp
  !! len1 = Some (rowOf s1 s2 len1).
Proof.
  intros (Hl & H0 & Hrest).
  set (I := fun (k : nat) (dp : list (list nat)) =>
    length dp = len1 + 1 /\
    (forall m, m < k -> dp !! m = Some (rowOf s1 s2 m)) /\
    forall m, k <= m <= len1 ->
      exists r, dp !! m = Some r /\ length r = len2 + 1 /\ r !! 0 = Some m).
  match goal with |- ?loop !! _ = _ => assert (HI : I (len1 + 1) loop) end.
  { apply forUpTo_invariant; [lia| |].
    - split; [exact Hl|]. split.
      + intros m Hm. now replace m with 0 by lia.
      + exact Hrest.
    - intros k dp' Hk (Hl' & Hdone & Htodo).
      destruct k as [|k']; [lia|].
      destruct (Htodo (S k') ltac:(lia)) as (r & Hr & Hlr & Hr0).
      assert (Hprev : dp' !! (S k' - 1) = Some (rowOf s1 s2 k')).
      { replace (S k' - 1) with k' by lia. apply Hdone. lia. }
      unfold forUpTo at 1.
      rewrite (matrix_row_loop (S k') (rowOf s1 s2 k') _ dp' r ltac:(lia) Hprev Hr).
      match goal with
      | |- context [fold_left ?f ?l r] =>
          change (fold_left f l r) with (fillRow s1 s2 (S k') (rowOf s1 s2 k') r)
      end.
      rewrite fillRow_correct by assumption.
      split; [now rewrite length_insert|]. split.
      + intros m Hm. destruct (decide (m = S k')) as [->|Hne].
        * apply list_lookup_insert_eq. lia.
        * rewrite list_lookup_insert_ne by lia. apply Hdone. lia.
      + intros m Hm. rewrite list_lookup_insert_ne by lia. apply Htodo. lia. }
  destruct HI as (_ & Hdone & _). apply Hdone. lia.
Qed.
End Matrix.

(** What the two programs compute, in terms of the recurrence. *)
Lemma matrix_levenshteinDistance (str1 str2 : jsstring) :
  JsAlgorithms.levenshteinDistance str1 str2 =
  editCell (toLowerCase str1) (toLowerCase str2)
           (length (toLowerCase str1)) (length (toLowerCase str2)).
Proof.
  unfold JsAlgorithms.levenshteinDistance.
  set (s1 := toLowerCase str1). set (s2 := toLowerCase str2).
  cbv zeta.
  destruct (first_column s2 (length s1)) as [Hl Hrows].
  pose proof (first_row s1 s2 (length s1) _ Hl Hrows) as Hbase.
  pose proof (matrix_correct s1 s2 (length s1) _ Hbase) as Hrow.
  rewrite (list_lookup_total_correct _ _ _ Hrow).
  apply rowOf_lookup_total. lia.
Qed.

Lemma two_row_levenshteinDistance (str1 str2 : jsstring) :
  Algorithms.levenshteinDistance str1 str2 =
  let s1 := toLowerCase str1 in
  let s2 := toLowerCase str2 in
  if Nat.max (length s1) (length s2) <? 2 * absDiff (length s1) (length s2)
  then Nat.max (length s1) (length s2)
  else editCell s1 s2 (length s1) (length s2).
Proof.
  unfold Algorithms.levenshteinDistance. cbv zeta.
  set (s1 := toLowerCase str1). set (s2 := toLowerCase str2).
  destruct (Nat.max (length s1) (length s2) <? 2 * absDiff (length s1) (length s2));
    [reflexivity|].
  rewrite (initial_row s1 s2).
  pose proof (two_rows_correct s1 s2 (length s1) (rowOf s1 s2 0)
                (replicate (length s2 + 1) 0) eq_refl (length_replicate _ _)) as Hrows.
  match goal with
  | |- (let '(_, _) := ?loop in _) = _ =>
      assert (Hfst : fst loop = rowOf s1 s2 (length s1)) by exact Hrows;
      destruct loop as [p c]
  end.
  simpl in Hfst. subst p.
  apply rowOf_lookup_total. lia.
Qed.

(** ** Properties of the recurrence *)

Lemma editCell_le_max (s1 s2 : jsstring) :
  forall i j, editCell s1 s2 i j <= Nat.max i j.
Proof.
  induction i as [|i IHi]; intros j.
  - rewrite editCell_zero_l. lia.
  - destruct j as [|j].
    + rewrite editCell_zero_r. lia.
    + rewrite editCell_succ. pose proof (IHi j) as Hd.
      destruct (decide (s1 !! i = s2 !! j)); unfold min3; lia.
Qed.

Lemma editCell_sym (s1 s2 : jsstring) :
  forall i j, editCell s1 s2 i j = editCell s2 s1 j i.
Proof.
  induction i as [|i IHi]; intros j.
  - now rewrite editCell_zero_l, editCell_zero_r.
  - induction j as [|j IHj].
    + now rewrite editCell_zero_l, editCell_zero_r.
    + rewrite !editCell_succ, <- IHj, <- !IHi.
      destruct (decide (s1 !! i = s2 !! j)), (decide (s2 !! j = s1 !! i));
        try congruence; unfold min3; lia.
Qed.

Lemma editCell_diag (s : jsstring) : forall i, editCell s s i i = 0.
Proof.
  induction i as [|i IHi]; [reflexivity|].
  rewrite editCell_succ. destruct (decide (s !! i = s !! i)); congruence.
Qed.

Lemma editCell_zero_prefix (s1 s2 : jsstring) :
  forall i j,
    i <= length s1 -> j <= length s2 ->
    editCell s1 s2 i j = 0 -> i = j /\ take i s1 = take j s2.
Proof.
  induction i as [|i IHi]; intros j Hi Hj H0.
  - rewrite editCell_zero_l in H0. subst j. split; reflexivity.
  - destruct j as [|j]; [rewrite editCell_zero_r in H0; lia|].
    rewrite editCell_succ in H0.
    destruct (decide (s1 !! i = s2 !! j)) as [Heq|Hne]; [|unfold min3 in H0; lia].
    destruct (IHi j ltac:(lia) ltac:(lia) H0) as [Hij Htake].
    split; [lia|].
    destruct (lookup_lt_is_Some_2 s1 i ltac:(lia)) as [x Hx].
    rewrite (take_S_r s1 i x Hx).
    assert (Hy : s2 !! j = Some x) by congruence.
    rewrite (take_S_r s2 j x Hy). now rewrite Htake.
Qed.

Lemma editCell_zero_eq (s1 s2 : jsstring) :
  editCell s1 s2 (length s1) (length s2) = 0 -> s1 = s2.
Proof.
  intros H0.
  destruct (editCell_zero_prefix s1 s2 _ _ (le_n _) (le_n _) H0) as [Hlen Htake].
  rewrite !firstn_all in Htake. exact Htake.
Qed.

(** ** Levenshtein distance *)

Lemma levenshteinDistance_le_max (str1 str2 : jsstring) :
  Algorithms.levenshteinDistance str1 str2
  <= Nat.max (length (toLowerCase str1)) (length (toLowerCase str2)).
Proof.
  rewrite two_row_levenshteinDistance. cbv zeta.
  destruct (_ <? _); [lia | apply editCell_le_max].
Qed.

Lemma levenshteinDistance_sym (str1 str2 : jsstring) :
  Algorithms.levenshteinDistance str1 str2 = Algorithms.levenshteinDistance str2 str1.
Proof.
  rewrite !two_row_levenshteinDistance. cbv zeta.
  rewrite (Nat.max_comm (length (toLowerCase str2))).
  replace (absDiff (length (toLowerCase str2)) (length (toLowerCase str1)))
    with (absDiff (length (toLowerCase str1)) (length (toLowerCase str2)))
    by (unfold absDiff; lia).
  destruct (_ <? _); [reflexivity | apply editCell_sym].
Qed.

Lemma levenshteinDistance_same (str : jsstring) :
  Algorithms.levenshteinDistance str str = 0.
Proof.
  rewrite two_row_levenshteinDistance. cbv zeta.
  replace (absDiff _ _) with 0 by (unfold absDiff; lia).
  rewrite Nat.mul_0_r.
  destruct (Nat.ltb_spec (Nat.max (length (toLowerCase str)) (length (toLowerCase str))) 0);
    [lia | apply editCell_diag].
Qed.

Lemma levenshteinDistance_zero_eq (str1 str2 : jsstring) :
  Algorithms.levenshteinDistance str1 str2 = 0 -> toLowerCase str1 = toLowerCase str2.
Proof.
  rewrite two_row_levenshteinDistance. cbv zeta.
  destruct (Nat.ltb_spec (Nat.max (length (toLowerCase str1)) (length (toLowerCase str2)))
              (2 * absDiff (length (toLowerCase str1)) (length (toLowerCase str2))))
    as [Hshort|Hfull]; intros H0.
  - unfold absDiff in Hshort. lia.
  - now apply editCell_zero_eq.
Qed.

(** ** Lower-casing *)

Lemma lowerUnit_nonempty (c : codeunit) : lowerUnit c <> [].
Proof. unfold lowerUnit. repeat destruct (_ : bool); discriminate. Qed.

Lemma length_lowerUnit (c : codeunit) : c <> 304%N -> length (lowerUnit c) = 1.
Proof.
  intros Hc. unfold lowerUnit.
  destruct (_ && _); [reflexivity|]. destruct (_ && _); [reflexivity|].
  destruct (N.eqb_spec c 304); [contradiction | reflexivity].
Qed.

Lemma toLowerCase_nil_inv (s : jsstring) : toLowerCase s = [] -> s = [].
Proof.
  destruct s as [|c s]; [reflexivity|]. unfold toLowerCase. simpl.
  intros H. apply app_eq_nil in H as [H _]. now apply lowerUnit_nonempty in H.
Qed.

(** Lower-casing keeps the length of a string without U+0130. *)
Lemma length_toLowerCase (s : jsstring) :
  Forall (fun c => c <> 304%N) s -> length (toLowerCase s) = length s.
Proof.
  unfold toLowerCase. induction 1 as [|c s Hc _ IH]; [reflexivity|].
  simpl. rewrite length_app, IH, length_lowerUnit by exact Hc. reflexivity.
Qed.

Lemma length_toLowerCase_ge (s : jsstring) : length s <= length (toLowerCase s).
Proof.
  unfold toLowerCase. induction s as [|c s IH]; [reflexivity|].
  simpl. rewrite length_app. pose proof (lowerUnit_nonempty c).
  destruct (lowerUnit c); [congruence | simpl; lia].
Qed.

(** ** Sets and counting loops *)

Lemma elem_of_newSet (l seen : list jsstring) (x : jsstring) :
  x ∈ newSet l seen <-> x ∈ seen \/ x ∈ l.
Proof.
  revert seen. induction l as [|y l IH]; intros seen; simpl.
  - rewrite elem_of_nil. tauto.
  - rewrite elem_of_cons. case_bool_decide as Hy; rewrite IH.
    + split; [tauto|]. intros [H|[->|H]]; tauto.
    + rewrite elem_of_app, list_elem_of_singleton. tauto.
Qed.

Lemma NoDup_newSet (l seen : list jsstring) : NoDup seen -> NoDup (newSet l seen).
Proof.
  revert seen. induction l as [|y l IH]; intros seen Hseen; simpl; [exact Hseen|].
  case_bool_decide as Hy; apply IH; [exact Hseen|].
  apply NoDup_app. split; [exact Hseen|]. split; [|apply NoDup_singleton].
  intros x Hx Hxy. apply list_elem_of_singleton in Hxy. congruence.
Qed.

Lemma newSet_nil_inv (l : list jsstring) : newSet l [] = [] -> l = [].
Proof.
  intros Hnil. destruct l as [|x l]; [reflexivity|].
  assert (Hx : x ∈ newSet (x :: l) []) by (apply elem_of_newSet; right; left).
  rewrite Hnil in Hx. now apply elem_of_nil in Hx.
Qed.

(** A counting loop is the length of a filter. *)
Lemma count_loop {A : Type} (p : A -> bool) (l : list A) (n : nat) :
  fold_left (fun count item => if p item then count + 1 else count) l n
  = n + length (List.filter p l).
Proof.
  revert n. induction l as [|x l IH]; intros n; simpl; [lia|].
  rewrite IH. destruct (p x); simpl; lia.
Qed.

Lemma length_filter_le {A : Type} (p : A -> bool) (l : list A) :
  length (List.filter p l) <= length l.
Proof. induction l as [|x l IH]; simpl; [lia|]. destruct (p x); simpl; lia. Qed.

Lemma elem_of_List_filter {A : Type} (p : A -> bool) (l : list A) (x : A) :
  x ∈ List.filter p l <-> x ∈ l /\ p x = true.
Proof. rewrite !list_elem_of_In. apply filter_In. Qed.

Lemma NoDup_List_filter {A : Type} (p : A -> bool) (l : list A) :
  NoDup l -> NoDup (List.filter p l).
Proof. rewrite !NoDup_ListNoDup. apply List.NoDup_filter. Qed.

Lemma has_true (set : list jsstring) (x : jsstring) : has set x = true <-> x ∈ set.
Proof. unfold has. apply bool_decide_eq_true. Qed.

(** The members of one set found in the other: the count is the same from
    either side. *)
Lemma common_count_sym (set1 set2 : list jsstring) :
  NoDup set1 -> NoDup set2 ->
  length (List.filter (has set2) set1) = length (List.filter (has set1) set2).
Proof.
  intros H1 H2. apply Permutation_length, NoDup_Permutation.
  - now apply NoDup_List_filter.
  - now apply NoDup_List_filter.
  - intros x. rewrite !elem_of_List_filter, !has_true. tauto.
Qed.

(** ** Jaccard similarity *)

Lemma ratio_in_unit_interval (a c : R) :
  (0 <= a <= c)%R -> (0 < c)%R -> (0 <= a / c <= 1)%R.
Proof.
  intros [Ha Hac] Hc. pose proof (Rinv_0_lt_compat c Hc) as Hinv.
  unfold Rdiv. split.
  - apply Rmult_le_pos; lra.
  - replace 1%R with (c * / c)%R by (apply Rinv_r; lra).
    apply Rmult_le_compat_r; lra.
Qed.

Lemma jaccardSimilarity_value (str1 str2 : jsstring) :
  let set1 := newSet (Algorithms.preprocessText str1) [] in
  let set2 := newSet (Algorithms.preprocessText str2) [] in
  let common := length (List.filter (has set2) set1) in
  Algorithms.jaccardSimilarity str1 str2 =
  if (length set1 =? 0) || (length set2 =? 0) then 0%R
  else (INR common / INR (length set1 + length set2 - common))%R.
Proof.
  intros set1 set2 common. unfold Algorithms.jaccardSimilarity.
  fold set1 set2. cbv zeta. rewrite count_loop. simpl (0 + _). fold common.
  destruct (Nat.eqb_spec (length set1) 0) as [|H1]; [reflexivity|].
  destruct (Nat.eqb_spec (length set2) 0) as [|H2]; [reflexivity|].
  simpl orb.
  assert (Hc : common <= length set1) by apply length_filter_le.
  replace (Z.of_nat (length set1) + Z.of_nat (length set2) - Z.of_nat common)%Z
    with (Z.of_nat (length set1 + length set2 - common)) by lia.
  destruct (Z.eqb_spec (Z.of_nat (length set1 + length set2 - common)) 0) as [H0|_];
    [lia|].
  now rewrite <- INR_IZR_INZ.
Qed.

Lemma jaccardSimilarity_range (str1 str2 : jsstring) :
  (0 <= Algorithms.jaccardSimilarity str1 str2 <= 1)%R.
Proof.
  rewrite jaccardSimilarity_value. cbv zeta.
  set (set1 := newSet (Algorithms.preprocessText str1) []).
  set (set2 := newSet (Algorithms.preprocessText str2) []).
  set (common := length (List.filter (has set2) set1)).
  destruct (Nat.eqb_spec (length set1) 0) as [|H1]; [simpl; lra|].
  destruct (Nat.eqb_spec (length set2) 0) as [|H2]; [simpl; lra|].
  simpl orb.
  assert (Hc : common <= length set1) by apply length_filter_le.
  assert (Hc' : common <= length set2).
  { unfold common.
    rewrite (common_count_sym set1 set2) by (apply NoDup_newSet, NoDup_nil; exact I).
    apply length_filter_le. }
  assert (Hpos : (0 < INR (length set1 + length set2 - common))%R)
    by (apply lt_0_INR; lia).
  assert (Hle : (INR common <= INR (length set1 + length set2 - common))%R)
    by (apply le_INR; lia).
  pose proof (pos_INR common) as Hc0.
  apply ratio_in_unit_interval; [split|]; assumption.
Qed.

Lemma jaccardSimilarity_sym (str1 str2 : jsstring) :
  Algorithms.jaccardSimilarity str1 str2 = Algorithms.jaccardSimilarity str2 str1.
Proof.
  rewrite !jaccardSimilarity_value. cbv zeta.
  set (set1 := newSet (Algorithms.preprocessText str1) []).
  set (set2 := newSet (Algorithms.preprocessText str2) []).
  rewrite (common_count_sym set2 set1) by (apply NoDup_newSet, NoDup_nil; exact I).
  rewrite (Nat.add_comm (length set2)), (orb_comm (length set2 =? 0)).
  reflexivity.
Qed.

Lemma jaccardSimilarity_same (str : jsstring) :
  Algorithms.preprocessText str <> [] ->
  Algorithms.jaccardSimilarity str str = 1%R.
Proof.
  intros Htokens. rewrite jaccardSimilarity_value. cbv zeta.
  set (set1 := newSet (Algorithms.preprocessText str) []).
  assert (Hne : length set1 <> 0).
  { intros H0. apply Htokens, newSet_nil_inv. now apply length_zero_iff_nil. }
  destruct (Nat.eqb_spec (length set1) 0) as [|_]; [contradiction|]. simpl orb.
  assert (Hall : List.filter (has set1) set1 = set1).
  { apply forallb_filter_id, forallb_forall. intros x Hx.
    apply has_true, list_elem_of_In, Hx. }
  rewrite Hall. replace (length set1 + length set1 - length set1) with (length set1) by lia.
  apply Rdiv_diag. apply not_0_INR. exact Hne.
Qed.

(** ** Cosine similarity *)

Lemma cross_term_bound (D X Y a b : Z) :
  (0 <= D)%Z -> (0 <= X)%Z -> (0 <= Y)%Z -> (0 <= a)%Z -> (0 <= b)%Z ->
  (D * D <= X * Y)%Z ->
  (2 * (a * b * D) <= X * (b * b) + Y * (a * a))%Z.
Proof.
  intros HD HX HY Ha Hb HDXY.
  set (u := (X * (b * b) + Y * (a * a))%Z).
  set (v := (2 * (a * b * D))%Z).
  assert (Hu : (0 <= u)%Z) by (unfold u; nia).
  assert (Hv : (0 <= v)%Z) by (unfold v; nia).
  assert (Hsq : (v * v <= u * u)%Z).
  { assert (H1 : (4 * (X * Y) * ((a * b) * (a * b)) <= u * u)%Z).
    { pose proof (Z.square_nonneg (X * (b * b) - Y * (a * a))) as Hs.
      unfold u. nia. }
    assert (H2 : (v * v = 4 * (D * D) * ((a * b) * (a * b)))%Z) by (unfold v; ring).
    assert (H3 : (0 <= (a * b) * (a * b))%Z) by apply Z.square_nonneg.
    nia. }
  destruct (Z_le_gt_dec v u) as [Hle|Hgt]; [exact Hle|]. nia.
Qed.

(** The Cauchy-Schwarz inequality for the three sums of the loop. *)
Lemma dot_product_bound (f g : jsstring -> nat) (l : list jsstring) :
  let D := list_sum (List.map (fun w => f w * g w) l) in
  let X := list_sum (List.map (fun w => f w * f w) l) in
  let Y := list_sum (List.map (fun w => g w * g w) l) in
  D * D <= X * Y.
Proof.
  induction l as [|w l IH]; simpl; [lia|].
  simpl in IH.
  set (D := list_sum (List.map (fun w => f w * g w) l)) in *.
  set (X := list_sum (List.map (fun w => f w * f w) l)) in *.
  set (Y := list_sum (List.map (fun w => g w * g w) l)) in *.
  pose proof (cross_term_bound (Z.of_nat D) (Z.of_nat X) (Z.of_nat Y)
                (Z.of_nat (f w)) (Z.of_nat (g w))
                ltac:(lia) ltac:(lia) ltac:(lia) ltac:(lia) ltac:(lia) ltac:(nia)) as Hx.
  nia.
Qed.

Lemma cosine_loop (f g : jsstring -> nat) (l : list jsstring) :
  forall d x y,
    fold_left (fun '(dotProduct, magnitude1, magnitude2) word =>
                 let count1 := f word in
                 let count2 := g word in
                 (dotProduct + count1 * count2,
                  magnitude1 + count1 * count1,
                  magnitude2 + count2 * count2)) l (d, x, y)
    = (d + list_sum (List.map (fun w => f w * g w) l),
       x + list_sum (List.map (fun w => f w * f w) l),
       y + list_sum (List.map (fun w => g w * g w) l)).
Proof.
  induction l as [|w l IH]; intros d x y; simpl.
  - now rewrite !Nat.add_0_r.
  - rewrite IH. f_equal; [f_equal|]; lia.
Qed.

Lemma list_sum_Permutation (l k : list nat) : l ≡ₚ k -> list_sum l = list_sum k.
Proof. induction 1; simpl; lia. Qed.

(** The vocabulary of two word lists, whichever comes first. *)
Lemma allWords_Permutation (keys1 keys2 : list jsstring) :
  newSet (keys1 ++ keys2) [] ≡ₚ newSet (keys2 ++ keys1) [].
Proof.
  apply NoDup_Permutation; try (apply NoDup_newSet, NoDup_nil; exact I).
  intros x. rewrite !elem_of_newSet, !elem_of_app. tauto.
Qed.

Lemma cosineSimilarity_value (str1 str2 : jsstring) :
  let words1 := Algorithms.preprocessText str1 in
  let words2 := Algorithms.preprocessText str2 in
  let freq1 := Algorithms.frequencies words1 in
  let freq2 := Algorithms.frequencies words2 in
  let allWords := newSet (mapKeys freq1 ++ mapKeys freq2) [] in
  let D := list_sum (List.map (fun w => Algorithms.getOr0 freq1 w * Algorithms.getOr0 freq2 w)
                              allWords) in
  let X := list_sum (List.map (fun w => Algorithms.getOr0 freq1 w * Algorithms.getOr0 freq1 w)
                              allWords) in
  let Y := list_sum (List.map (fun w => Algorithms.getOr0 freq2 w * Algorithms.getOr0 freq2 w)
                              allWords) in
  Algorithms.cosineSimilarity str1 str2 =
  if (length words1 =? 0) || (length words2 =? 0) then 0%R
  else if Req_dec_T (sqrt (INR X)) 0 then 0%R
  else if Req_dec_T (sqrt (INR Y)) 0 then 0%R
  else (INR D / (sqrt (INR X) * sqrt (INR Y)))%R.
Proof.
  intros words1 words2 freq1 freq2 allWords D X Y.
  unfold Algorithms.cosineSimilarity. fold words1 words2. cbv zeta.
  fold freq1 freq2. fold allWords.
  destruct ((length words1 =? 0) || (length words2 =? 0)); [reflexivity|].
  pose proof (cosine_loop (Algorithms.getOr0 freq1) (Algorithms.getOr0 freq2) allWords 0 0 0)
    as Hloop.
  cbv zeta in Hloop. rewrite Hloop. simpl (0 + _). reflexivity.
Qed.

Lemma cosineSimilarity_range (str1 str2 : jsstring) :
  (0 <= Algorithms.cosineSimilarity str1 str2 <= 1)%R.
Proof.
  rewrite cosineSimilarity_value. cbv zeta.
  set (f := Algorithms.getOr0 (Algorithms.frequencies (Algorithms.preprocessText str1))).
  set (g := Algorithms.getOr0 (Algorithms.frequencies (Algorithms.preprocessText str2))).
  set (l := newSet _ []).
  pose proof (dot_product_bound f g l) as HCS. cbv zeta in HCS.
  set (D := list_sum (List.map (fun w => f w * g w) l)) in *.
  set (X := list_sum (List.map (fun w => f w * f w) l)) in *.
  set (Y := list_sum (List.map (fun w => g w * g w) l)) in *.
  destruct (_ || _); [lra|].
  destruct (Req_dec_T (sqrt (INR X)) 0) as [|HX]; [lra|].
  destruct (Req_dec_T (sqrt (INR Y)) 0) as [|HY]; [lra|].
  pose proof (sqrt_pos (INR X)) as HX0. pose proof (sqrt_pos (INR Y)) as HY0.
  apply ratio_in_unit_interval.
  - split; [apply pos_INR|].
    rewrite <- sqrt_mult by apply pos_INR.
    rewrite <- (sqrt_square (INR D)) by apply pos_INR.
    apply sqrt_le_1.
    + apply Rmult_le_pos; apply pos_INR.
    + apply Rmult_le_pos; apply pos_INR.
    + rewrite <- !mult_INR. apply le_INR. exact HCS.
  - apply Rmult_lt_0_compat; lra.
Qed.

Lemma cosineSimilarity_sym (str1 str2 : jsstring) :
  Algorithms.cosineSimilarity str1 str2 = Algorithms.cosineSimilarity str2 str1.
Proof.
  rewrite !cosineSimilarity_value. cbv zeta.
  set (f := Algorithms.getOr0 (Algorithms.frequencies (Algorithms.preprocessText str1))).
  set (g := Algorithms.getOr0 (Algorithms.frequencies (Algorithms.preprocessText str2))).
  set (keys1 := mapKeys (Algorithms.frequencies (Algorithms.preprocessText str1))).
  set (keys2 := mapKeys (Algorithms.frequencies (Algorithms.preprocessText str2))).
  pose proof (allWords_Permutation keys2 keys1) as Hperm.
  rewrite !(list_sum_Permutation _ _ (Permutation_map _ Hperm)).
  rewrite (orb_comm (length (Algorithms.preprocessText str2) =? 0)).
  rewrite (map_ext (fun w => g w * f w) (fun w => f w * g w)) by (intros; lia).
  rewrite (Rmult_comm (sqrt (INR (list_sum (List.map (fun w => g w * g w) _))))).
  destruct (_ || _); [reflexivity|].
  destruct (Req_dec_T _ 0), (Req_dec_T _ 0); reflexivity.
Qed.

(** ** Levenshtein similarity *)

Lemma levenshteinSimilarity_sym (str1 str2 : jsstring) :
  Algorithms.levenshteinSimilarity str1 str2 = Algorithms.levenshteinSimilarity str2 str1.
Proof.
  unfold Algorithms.levenshteinSimilarity. cbv zeta.
  now rewrite levenshteinDistance_sym, (Nat.max_comm (length str2)).
Qed.

Lemma levenshteinSimilarity_same (str : jsstring) :
  Algorithms.levenshteinSimilarity str str = 1%R.
Proof.
  unfold Algorithms.levenshteinSimilarity. cbv zeta.
  rewrite levenshteinDistance_same.
  destruct (_ =? 0); [reflexivity|]. simpl INR. unfold Rdiv. lra.
Qed.

Lemma levenshteinSimilarity_le_1 (str1 str2 : jsstring) :
  (Algorithms.levenshteinSimilarity str1 str2 <= 1)%R.
Proof.
  unfold Algorithms.levenshteinSimilarity. cbv zeta.
  destruct (Nat.eqb_spec (Nat.max (length str1) (length str2)) 0) as [|Hmax]; [lra|].
  assert (0 <= INR (Algorithms.levenshteinDistance str1 str2)
               / INR (Nat.max (length str1) (length str2)))%R; [|lra].
  apply Rmult_le_pos; [apply pos_INR|].
  left. apply Rinv_0_lt_compat, lt_0_INR. lia.
Qed.

(** Where lower-casing keeps both lengths, the similarity is in [0,1]. *)
Lemma levenshteinSimilarity_range (str1 str2 : jsstring) :
  length (toLowerCase str1) = length str1 ->
  length (toLowerCase str2) = length str2 ->
  (0 <= Algorithms.levenshteinSimilarity str1 str2 <= 1)%R.
Proof.
  intros H1 H2. split; [|apply levenshteinSimilarity_le_1].
  unfold Algorithms.levenshteinSimilarity. cbv zeta.
  destruct (Nat.eqb_spec (Nat.max (length str1) (length str2)) 0) as [|Hmax]; [lra|].
  pose proof (levenshteinDistance_le_max str1 str2) as Hd. rewrite H1, H2 in Hd.
  assert (0 <= INR (Algorithms.levenshteinDistance str1 str2)
               / INR (Nat.max (length str1) (length str2)) <= 1)%R; [|lra].
  apply ratio_in_unit_interval.
  - split; [apply pos_INR | now apply le_INR].
  - apply lt_0_INR. lia.
Qed.

Lemma levenshteinSimilarity_one_inv (str1 str2 : jsstring) :
  Algorithms.levenshteinSimilarity str1 str2 = 1%R ->
  toLowerCase str1 = toLowerCase str2.
Proof.
  unfold Algorithms.levenshteinSimilarity. cbv zeta.
  destruct (Nat.eqb_spec (Nat.max (length str1) (length str2)) 0) as [Hmax|Hmax].
  - intros _. destruct str1, str2; simpl in Hmax; try lia. reflexivity.
  - intros Hsim. apply levenshteinDistance_zero_eq.
    assert (Hpos : (0 < INR (Nat.max (length str1) (length str2)))%R)
      by (apply lt_0_INR; lia).
    assert (Hz : (INR (Algorithms.levenshteinDistance str1 str2) = 0)%R).
    { assert (Hq : (INR (Algorithms.levenshteinDistance str1 str2)
                    / INR (Nat.max (length str1) (length str2)) = 0)%R) by lra.
      unfold Rdiv in Hq. apply Rmult_integral in Hq as [Hq|Hq]; [exact Hq|].
      pose proof (Rinv_0_lt_compat _ Hpos). lra. }
    now apply INR_eq.
Qed.

Lemma levenshteinSimilarity_lt_1 (str1 str2 : jsstring) :
  toLowerCase str1 <> toLowerCase str2 ->
  (Algorithms.levenshteinSimilarity str1 str2 < 1)%R.
Proof.
  intros Hne. pose proof (levenshteinSimilarity_le_1 str1 str2) as Hle.
  destruct (Req_dec_T (Algorithms.levenshteinSimilarity str1 str2) 1) as [H1|H1]; [|lra].
  now apply levenshteinSimilarity_one_inv in H1.
Qed.

(** ** Sorting *)

Section Sorting.
Context {A : Type} (score : A -> R).

Let cmp (a b : A) : R := (score b - score a)%R.
Let before (a b : A) : Prop := (score b <= score a)%R.

Lemma insertBy_Permutation (x : A) (l : list A) : insertBy cmp x l ≡ₚ x :: l.
Proof.
  induction l as [|y l IH]; simpl; [reflexivity|].
  destruct (Rle_dec (cmp x y) 0); [reflexivity|].
  rewrite IH. apply Permutation_swap.
Qed.

Lemma sortBy_Permutation (l : list A) : sortBy cmp l ≡ₚ l.
Proof.
  induction l as [|x l IH]; simpl; [reflexivity|].
  rewrite insertBy_Permutation. now rewrite IH.
Qed.

Lemma insertBy_sorted (x : A) (l : list A) :
  StronglySorted before l -> StronglySorted before (insertBy cmp x l).
Proof.
  induction 1 as [|y l Hl IH Hy]; simpl.
  - constructor; [constructor | constructor].
  - destruct (Rle_dec (cmp x y) 0) as [Hxy|Hxy]; unfold cmp in Hxy.
    + constructor; [now constructor|].
      constructor; [unfold before; lra|].
      eapply Forall_impl; [exact Hy|]. unfold before. intros z Hz. simpl in Hz. lra.
    + constructor; [exact IH|].
      rewrite insertBy_Permutation. constructor; [unfold before; lra | exact Hy].
Qed.

Lemma sortBy_sorted (l : list A) : StronglySorted before (sortBy cmp l).
Proof.
  induction l as [|x l IH]; simpl; [constructor|]. now apply insertBy_sorted.
Qed.

Lemma StronglySorted_take (n : nat) (l : list A) :
  StronglySorted before l -> StronglySorted before (take n l).
Proof.
  intros Hl. revert n. induction Hl as [|y l Hl IH Hy]; intros [|n]; simpl;
    try constructor; [apply IH | now apply Forall_take].
Qed.

(** What holds of every entry still holds of the first [n] after sorting. *)
Lemma Forall_take_sortBy (P : A -> Prop) (n : nat) (l : list A) :
  Forall P l -> Forall P (take n (sortBy cmp l)).
Proof. intros Hl. apply Forall_take. now rewrite sortBy_Permutation. Qed.

Lemma take_sortBy_sorted (n : nat) (l : list A) :
  StronglySorted (fun a b => (score b <= score a)%R) (take n (sortBy cmp l)).
Proof. apply StronglySorted_take, sortBy_sorted. Qed.

Lemma length_take_le_n (n : nat) (l : list A) : length (take n l) <= n.
Proof. rewrite length_take. lia. Qed.
End Sorting.

(** ** The ranker *)

(** The franchise bonus lies between 0 and 0.25. *)
Lemma franchise_ratio_bound (p : jsstring -> bool) (words : list jsstring) :
  0 < length words ->
  let matchingWords :=
    fold_left (fun count word => if p word then count + 1 else count) words 0 in
  (0 <= INR matchingWords / INR (length words) * 0.25 <= 0.25)%R.
Proof.
  intros Hlen matchingWords. unfold matchingWords. rewrite count_loop. simpl (0 + _).
  pose proof (length_filter_le p words) as Hle.
  assert (0 <= INR (length (List.filter p words)) / INR (length words) <= 1)%R; [|lra].
  apply ratio_in_unit_interval.
  - split; [apply pos_INR | now apply le_INR].
  - now apply lt_0_INR.
Qed.

(** C1: whatever the catalog, the selected movie, the algorithm and [topN],
    no recommendation carries the identifier of the selected movie, there are
    at most [topN] of them, and they come in descending order of
    [similarityScore], which is the base similarity to the selected movie
    plus a franchise bonus between 0 and 0.25. *)
Theorem getRecommendations_excludes_bounded_sorted
    (movies : list Movie) (selectedMovie : Movie) (algorithm : jsstring) (topN : nat) :
  let out := Algorithms.getRecommendations movies selectedMovie algorithm topN in
  let referenceText :=
    description selectedMovie ++ 32%N :: join (genre selectedMovie) in
  Forall (fun r => id (recommended r) <> id selectedMovie) out /\
  length out <= topN /\
  StronglySorted
    (fun a b => (similarityScore b <= similarityScore a)%R) out /\
  Forall (fun r =>
            exists franchiseBonus : R,
              (0 <= franchiseBonus <= 0.25)%R /\
              similarityScore r =
              (Algorithms.calculateMovieSimilarity (recommended r)
                 referenceText algorithm (Some selectedMovie) + franchiseBonus)%R) out.
Proof.
  intros out referenceText. unfold out, Algorithms.getRecommendations. cbv zeta.
  fold referenceText.
  set (refTitleWords := List.filter _ (split _ (toLowerCase (title selectedMovie)))).
  set (sameGenreMovies := List.filter _ movies).
  set (others := List.filter (fun movie => negb (bool_decide (id movie = id selectedMovie)))
                             movies).
  set (candidateMovies := if topN * 2 <=? length sameGenreMovies
                          then sameGenreMovies else others).
  assert (Hcand : Forall (fun movie => id movie <> id selectedMovie) candidateMovies).
  { unfold candidateMovies. destruct (_ <=? _); apply Forall_forall; intros m Hm.
    - apply elem_of_List_filter in Hm as [_ Hm].
      destruct (decide (id m = id selectedMovie)); [discriminate | assumption].
    - apply elem_of_List_filter in Hm as [_ Hm].
      apply negb_true_iff, bool_decide_eq_false in Hm. exact Hm. }
  repeat split.
  - apply (Forall_take_sortBy similarityScore).
    apply Forall_forall. intros r Hr.
    apply list_elem_of_In, in_map_iff in Hr as (m & <- & Hm). simpl.
    apply list_elem_of_In in Hm. revert m Hm. apply Forall_forall. exact Hcand.
  - apply length_take_le_n.
  - apply (take_sortBy_sorted similarityScore).
  - apply (Forall_take_sortBy similarityScore).
    apply Forall_forall. intros r Hr.
    apply list_elem_of_In, in_map_iff in Hr as (m & <- & Hm). simpl.
    eexists. split; [|reflexivity].
    destruct (Nat.ltb_spec 0 (length refTitleWords)) as [Hlen|Hlen]; [|lra].
    pose proof (franchise_ratio_bound (includes (toLowerCase (title m))) refTitleWords Hlen)
      as Hbonus. cbv zeta in Hbonus.
    destruct (0 <? _); [exact Hbonus | lra].
Qed.

(** C7: whatever the catalog, the search term and [maxResults], the search
    returns at most [maxResults] entries, each with a [searchScore] above 0.1
    that is 0.8 times its [titleScore] plus 0.2 times its [contentScore],
    in descending order of [searchScore]. *)
Theorem searchMovies_bounded_filtered_sorted
    (movies : list Movie) (searchTerm : jsstring) (maxResults : nat) :
  let out := Algorithms.searchMovies movies searchTerm maxResults in
  length out <= maxResults /\
  Forall (fun r =>
            (Algorithms.searchScore r > 0.1)%R /\
            Algorithms.searchScore r =
            (0.8 * Algorithms.titleScore r + 0.2 * Algorithms.contentScore r)%R) out /\
  StronglySorted
    (fun a b => (Algorithms.searchScore b <= Algorithms.searchScore a)%R) out.
Proof.
  intros out. unfold out, Algorithms.searchMovies. cbv zeta.
  repeat split.
  - apply length_take_le_n.
  - apply (Forall_take_sortBy Algorithms.searchScore).
    apply Forall_forall. intros r Hr.
    apply elem_of_List_filter in Hr as [Hr Hscore].
    split.
    + destruct (Rgt_dec (Algorithms.searchScore r) 0.1); [assumption | discriminate].
    + apply list_elem_of_In, in_map_iff in Hr as (m & <- & _). simpl. lra.
  - apply (take_sortBy_sorted Algorithms.searchScore).
Qed.

(** ** Claims on the similarity primitives and the score combiner *)

(** C2 (the code leaves the interval): lower-casing U+0130 gives two code
    units, the distance is counted on the lower-cased strings and divided by
    the longer of the original lengths, and the similarity of ["A"] and
    U+0130 is [1 - 2/1]. *)
Theorem levenshteinSimilarity_below_zero :
  Algorithms.levenshteinSimilarity (js "A") [304%N] = (-1)%R.
Proof.
  unfold Algorithms.levenshteinSimilarity. cbv zeta.
  replace (Algorithms.levenshteinDistance (js "A") [304%N]) with 2
    by (vm_compute; reflexivity).
  simpl. lra.
Qed.

(** C3: with a reference movie the score is 0.365 text + 0.25 genre +
    0.35 rating + 0.035 director, and without one it is the text similarity
    alone, the text similarity being the one the algorithm name selects
    (the combined one for any other name). *)
Theorem calculateMovieSimilarity_weights
    (movie : Movie) (query algorithm : jsstring) (referenceMovie : Movie) :
  let textSimilarity := Algorithms.calculateMovieSimilarity movie query algorithm None in
  Algorithms.calculateMovieSimilarity movie query algorithm (Some referenceMovie) =
    (0.365 * textSimilarity
     + 0.25 * Algorithms.genreSimilarity (genre movie) (genre referenceMovie)
     + 0.35 * Algorithms.ratingSimilarity (rating movie) (rating referenceMovie)
     + 0.035 * Algorithms.directorSimilarity (director movie) (director referenceMovie))%R
  /\ textSimilarity =
     (if decide (algorithm = js "jaccard") then
        Algorithms.jaccardSimilarity (movieText movie) query
      else if decide (algorithm = js "cosine") then
        Algorithms.cosineSimilarity (movieText movie) query
      else if decide (algorithm = js "levenshtein") then
        Algorithms.levenshteinSimilarity (movieText movie) query
      else Algorithms.combinedSimilarity (movieText movie) query).
Proof.
  unfold Algorithms.calculateMovieSimilarity. cbv zeta. split; [lra | reflexivity].
Qed.

(** C4: the combined similarity is 0.6 cosine + 0.3 Jaccard + 0.1
    Levenshtein, and the three weights sum to 1. *)
Theorem combinedSimilarity_weights (str1 str2 : jsstring) :
  Algorithms.combinedSimilarity str1 str2 =
    (0.6 * Algorithms.cosineSimilarity str1 str2
     + 0.3 * Algorithms.jaccardSimilarity str1 str2
     + 0.1 * Algorithms.levenshteinSimilarity str1 str2)%R
  /\ (0.6 + 0.3 + 0.1 = 1)%R.
Proof. unfold Algorithms.combinedSimilarity. cbv zeta. split; lra. Qed.

(** C5 as stated fails: for ["abc"] and ["a"] the two-row program takes the
    short-circuit and returns 3, the matrix program returns 2. *)
Lemma two_row_differs_from_matrix :
  Algorithms.levenshteinDistance (js "abc") (js "a")
  <> JsAlgorithms.levenshteinDistance (js "abc") (js "a").
Proof.
  replace (Algorithms.levenshteinDistance (js "abc") (js "a")) with 3
    by (vm_compute; reflexivity).
  replace (JsAlgorithms.levenshteinDistance (js "abc") (js "a")) with 2
    by (vm_compute; reflexivity).
  lia.
Qed.

(** C5, amended: when the lower-cased lengths differ by at most half the
    longer one, the two-row program returns what the matrix program returns;
    otherwise it returns the longer length, which is at least that value. *)
Theorem two_row_refines_matrix (str1 str2 : jsstring) :
  let len1 := length (toLowerCase str1) in
  let len2 := length (toLowerCase str2) in
  (2 * absDiff len1 len2 <= Nat.max len1 len2 ->
   Algorithms.levenshteinDistance str1 str2 = JsAlgorithms.levenshteinDistance str1 str2)
  /\
  (Nat.max len1 len2 < 2 * absDiff len1 len2 ->
   Algorithms.levenshteinDistance str1 str2 = Nat.max len1 len2 /\
   JsAlgorithms.levenshteinDistance str1 str2 <= Algorithms.levenshteinDistance str1 str2).
Proof.
  intros len1 len2.
  rewrite two_row_levenshteinDistance, matrix_levenshteinDistance. cbv zeta.
  fold len1 len2.
  destruct (Nat.ltb_spec (Nat.max len1 len2) (2 * absDiff len1 len2)) as [Hs|Hs].
  - split; [lia|]. intros _. split; [reflexivity | apply editCell_le_max].
  - split; [reflexivity | lia].
Qed.

(** The two programs agree on ["kitten"] and ["Sitting"], whose lengths
    differ by one. *)
Lemma two_row_refines_matrix_witness :
  Algorithms.levenshteinDistance (js "kitten") (js "Sitting")
  = JsAlgorithms.levenshteinDistance (js "kitten") (js "Sitting").
Proof.
  apply (two_row_refines_matrix (js "kitten") (js "Sitting")).
  vm_compute. lia.
Defined.

(** C8: the three text similarities are symmetric, the Levenshtein one also
    where the distance takes the length-difference short-circuit. *)
Theorem similarities_symmetric (a b : jsstring) :
  Algorithms.jaccardSimilarity a b = Algorithms.jaccardSimilarity b a /\
  Algorithms.cosineSimilarity a b = Algorithms.cosineSimilarity b a /\
  Algorithms.levenshteinSimilarity a b = Algorithms.levenshteinSimilarity b a.
Proof.
  split; [apply jaccardSimilarity_sym|].
  split; [apply cosineSimilarity_sym | apply levenshteinSimilarity_sym].
Qed.

(** C9: a text with at least one token after normalization has Jaccard
    similarity 1 to itself, and every text has Levenshtein similarity 1 to
    itself. *)
Theorem self_similarity (a : jsstring) :
  (Algorithms.preprocessText a <> [] -> Algorithms.jaccardSimilarity a a = 1%R) /\
  Algorithms.levenshteinSimilarity a a = 1%R.
Proof. split; [apply jaccardSimilarity_same | apply levenshteinSimilarity_same]. Qed.

(** ["the great movie"] keeps the tokens ["great"] and ["movie"]. *)
Lemma self_similarity_witness :
  Algorithms.jaccardSimilarity (js "the great movie") (js "the great movie") = 1%R /\
  Algorithms.levenshteinSimilarity (js "the great movie") (js "the great movie") = 1%R.
Proof.
  split.
  - apply (self_similarity (js "the great movie")). vm_compute. discriminate.
  - apply (self_similarity (js "the great movie")).
Defined.

(** ** Substrings and trimming *)

Lemma startsWith_prefix (s t : jsstring) :
  startsWith s t = true <-> exists r, s = t ++ r.
Proof.
  revert s. induction t as [|b t IH]; intros s; simpl.
  - split; [intros _; now exists s | reflexivity].
  - destruct s as [|a s]; [split; [discriminate | intros [r Hr]; discriminate]|].
    rewrite andb_true_iff, N.eqb_eq, IH. split.
    + intros [-> [r ->]]. now exists r.
    + intros [r Hr]. injection Hr as -> ->. split; [reflexivity | now exists r].
Qed.

Lemma includes_infix (s t : jsstring) :
  includes s t = true <-> exists l r, s = l ++ t ++ r.
Proof.
  induction s as [|a s IH]; simpl; rewrite orb_true_iff.
  - rewrite startsWith_prefix. split.
    + intros [[r Hr]|Hf]; [now exists [], r | discriminate].
    + intros (l & r & Hs). left. destruct l; [now exists r | discriminate].
  - rewrite startsWith_prefix, IH. split.
    + intros [[r Hr]|(l & r & ->)]; [now exists [], r | now exists (a :: l), r].
    + intros (l & r & Hs). destruct l as [|a' l]; [left; now exists r|].
      right. injection Hs as -> ->. now exists l, r.
Qed.

Lemma includes_nil (s : jsstring) : includes s [] = true.
Proof. destruct s; reflexivity. Qed.

(** A string found in another one is shorter, or it is the other one. *)
Lemma includes_shorter (s t : jsstring) :
  includes s t = true -> s <> t -> length t < length s.
Proof.
  intros Hin Hne. apply includes_infix in Hin as (l & r & ->).
  rewrite !length_app.
  destruct l as [|a l]; [|simpl; lia].
  destruct r as [|b r]; [|rewrite length_cons; lia].
  exfalso. apply Hne. now rewrite app_nil_r.
Qed.

Lemma trimStart_suffix (s : jsstring) : exists l, s = l ++ trimStart s.
Proof.
  induction s as [|c s [l IH]]; simpl; [now exists []|].
  destruct (isSpace c); [|now exists []].
  exists (c :: l). simpl. now rewrite <- IH.
Qed.

Lemma trimEnd_prefix (s : jsstring) : exists r, s = trimEnd s ++ r.
Proof.
  unfold trimEnd. destruct (trimStart_suffix (rev s)) as [l Hl].
  exists (rev l). rewrite <- rev_app_distr, <- Hl. now rewrite rev_involutive.
Qed.

Lemma includes_trim (s : jsstring) : includes s (trim s) = true.
Proof.
  apply includes_infix. unfold trim.
  destruct (trimStart_suffix s) as [l Hl].
  destruct (trimEnd_prefix (trimStart s)) as [r Hr].
  exists l, r. now rewrite <- Hr.
Qed.

Lemma trimStart_spaces (s : jsstring) :
  Forall (fun c => isSpace c = true) s -> trimStart s = [].
Proof. induction 1 as [|c s Hc _ IH]; simpl; [reflexivity|]. now rewrite Hc. Qed.

Lemma lowerUnit_space (c : codeunit) : isSpace c = true -> lowerUnit c = [c].
Proof.
  unfold isSpace, lowerUnit. intros Hc.
  destruct (N.leb_spec 65 c) as [H65|H65]; simpl.
  - destruct (N.leb_spec c 90) as [H90|H90]; simpl.
    + exfalso. revert Hc.
      repeat match goal with
             | |- context [(?a <=? ?b)%N] => destruct (N.leb_spec a b); try lia
             | |- context [(?a =? ?b)%N] => destruct (N.eqb_spec a b); try lia
             end; simpl; discriminate.
    + destruct (N.leb_spec 192 c) as [H192|H192]; simpl; [|
        destruct (N.eqb_spec c 304) as [->|]; [discriminate Hc | reflexivity]].
      destruct (N.leb_spec c 222) as [H222|H222]; simpl.
      * exfalso. revert Hc.
        repeat match goal with
               | |- context [(?a <=? ?b)%N] => destruct (N.leb_spec a b); try lia
               | |- context [(?a =? ?b)%N] => destruct (N.eqb_spec a b); try lia
               end; simpl; discriminate.
      * destruct (N.eqb_spec c 304) as [->|]; [discriminate Hc | reflexivity].
  - destruct (N.leb_spec 192 c); [lia|]. simpl.
    destruct (N.eqb_spec c 304); [lia | reflexivity].
Qed.

Lemma toLowerCase_spaces (s : jsstring) :
  Forall (fun c => isSpace c = true) s -> toLowerCase s = s.
Proof.
  unfold toLowerCase. induction 1 as [|c s Hc _ IH]; simpl; [reflexivity|].
  now rewrite IH, lowerUnit_space.
Qed.

(** Lower-casing and trimming a search term of white space leaves nothing. *)
Lemma trim_toLowerCase_spaces (s : jsstring) :
  Forall (fun c => isSpace c = true) s -> trim (toLowerCase s) = [].
Proof.
  intros Hs. rewrite toLowerCase_spaces by exact Hs.
  unfold trim. now rewrite trimStart_spaces.
Qed.

(** ** The title resolver *)

Lemma findClosestMatch_loop (movies : list Movie) (searchTerm : jsstring) :
  Algorithms.findClosestMatch movies searchTerm =
  fold_left (fun '(bestMatch, highestSimilarity) movie =>
               if Rgt_dec (Algorithms.titleSimilarity searchTerm movie) highestSimilarity
               then (Some movie, Algorithms.titleSimilarity searchTerm movie)
               else (bestMatch, highestSimilarity))
            movies (None, 0%R).
Proof. reflexivity. Qed.

Lemma word_overlap_le_1 (titleWords searchWords : list jsstring) :
  0 < length searchWords ->
  let matchingWords :=
    fold_left (fun count word => if has titleWords word then count + 1 else count)
              searchWords 0 in
  (0 <= INR matchingWords / INR (Nat.max (length searchWords) (length titleWords)) <= 1)%R.
Proof.
  intros Hlen matchingWords. unfold matchingWords. rewrite count_loop. simpl (0 + _).
  pose proof (length_filter_le (has titleWords) searchWords) as Hle.
  apply ratio_in_unit_interval.
  - split; [apply pos_INR | apply le_INR; lia].
  - apply lt_0_INR. lia.
Qed.

(** Outside the exact match, every strategy scores below 1. *)
Lemma titleSimilarity_lt_1 (searchTerm : jsstring) (movie : Movie) :
  toLowerCase (title movie) <> trim (toLowerCase searchTerm) ->
  (Algorithms.titleSimilarity searchTerm movie < 1)%R.
Proof.
  intros Hne. unfold Algorithms.titleSimilarity. cbv zeta.
  set (searchLower := trim (toLowerCase searchTerm)) in *.
  set (titleLower := toLowerCase (title movie)) in *.
  destruct (decide (titleLower = searchLower)) as [|_]; [contradiction|].
  destruct (includes titleLower searchLower) eqn:Hin.
  { pose proof (includes_shorter _ _ Hin Hne) as Hlt.
    assert (Hpos : (0 < INR (length titleLower))%R) by (apply lt_0_INR; lia).
    assert (Hratio : (INR (length searchLower) / INR (length titleLower) < 1)%R).
    { apply (Rmult_lt_reg_r (INR (length titleLower))); [exact Hpos|].
      unfold Rdiv. rewrite Rmult_assoc, Rinv_l by lra.
      rewrite Rmult_1_r, Rmult_1_l. now apply lt_INR. }
    lra. }
  destruct (includes searchLower titleLower); [lra|].
  assert (Hlev : (Algorithms.levenshteinSimilarity (title movie) searchTerm < 1)%R).
  { apply levenshteinSimilarity_lt_1. intros Heq.
    assert (Hin' : includes titleLower searchLower = true).
    { unfold searchLower. rewrite <- Heq. apply includes_trim. }
    congruence. }
  set (searchWords := newSet _ []). set (titleWords := newSet _ []).
  destruct (Nat.ltb_spec 0 (length searchWords)) as [Hs|Hs]; [|exact Hlev].
  destruct (0 <? length titleWords); [|exact Hlev]. simpl andb. cbv iota.
  pose proof (word_overlap_le_1 titleWords searchWords Hs) as Hw. cbv zeta in Hw.
  lra.
Qed.

Lemma titleSimilarity_exact (searchTerm : jsstring) (movie : Movie) :
  toLowerCase (title movie) = trim (toLowerCase searchTerm) ->
  Algorithms.titleSimilarity searchTerm movie = 1%R.
Proof.
  intros Heq. unfold Algorithms.titleSimilarity. cbv zeta.
  destruct (decide _) as [_|Hne]; [lra | contradiction].
Qed.

Lemma titleSimilarity_le_1 (searchTerm : jsstring) (movie : Movie) :
  (Algorithms.titleSimilarity searchTerm movie <= 1)%R.
Proof.
  destruct (decide (toLowerCase (title movie) = trim (toLowerCase searchTerm))) as [He|Hne].
  - rewrite titleSimilarity_exact by exact He. lra.
  - left. now apply titleSimilarity_lt_1.
Qed.

(** An empty trimmed search term is found in every non-empty title, with
    zero coverage. *)
Lemma titleSimilarity_empty_search (searchTerm : jsstring) (movie : Movie) :
  trim (toLowerCase searchTerm) = [] ->
  title movie <> [] ->
  Algorithms.titleSimilarity searchTerm movie = 0.85%R.
Proof.
  intros Hempty Htitle. unfold Algorithms.titleSimilarity. cbv zeta. rewrite Hempty.
  destruct (decide (toLowerCase (title movie) = [])) as [Hnil|_].
  - now apply toLowerCase_nil_inv in Hnil.
  - rewrite includes_nil. simpl. unfold Rdiv. lra.
Qed.

Section Resolver.
Variable searchTerm : jsstring.

Let step : option Movie * R -> Movie -> option Movie * R :=
  fun '(bestMatch, highestSimilarity) movie =>
    if Rgt_dec (Algorithms.titleSimilarity searchTerm movie) highestSimilarity
    then (Some movie, Algorithms.titleSimilarity searchTerm movie)
    else (bestMatch, highestSimilarity).

Let exact (movie : Movie) : Prop :=
  toLowerCase (title movie) = trim (toLowerCase searchTerm).

(** Once the confidence is 1 the loop keeps its match. *)
Lemma resolver_keeps_full_match (movies : list Movie) (best : option Movie) :
  fold_left step movies (best, 1%R) = (best, 1%R).
Proof.
  induction movies as [|m movies IH]; simpl; [reflexivity|].
  pose proof (titleSimilarity_le_1 searchTerm m) as Hle.
  destruct (Rgt_dec _ 1) as [Hgt|_]; [lra | exact IH].
Qed.

(** Below confidence 1, the loop stops at the first exact match it meets. *)
Lemma resolver_finds_exact (movies : list Movie) :
  forall (best : option Movie) (highest : R),
    (highest < 1)%R ->
    Exists exact movies ->
    exists before m after,
      movies = before ++ m :: after /\
      Forall (fun m' => ~ exact m') before /\
      exact m /\
      fold_left step movies (best, highest) = (Some m, 1%R).
Proof.
  induction movies as [|m0 movies IH]; intros best highest Hlt Hex.
  - inversion Hex.
  - simpl. destruct (decide (exact m0)) as [Hm0|Hm0].
    + exists [], m0, movies. split; [reflexivity|]. split; [constructor|].
      split; [exact Hm0|].
      rewrite (titleSimilarity_exact searchTerm m0 Hm0).
      destruct (Rgt_dec 1 highest) as [_|Hn]; [|lra].
      apply resolver_keeps_full_match.
    + assert (Hrest : Exists exact movies) by (inversion Hex; [contradiction | assumption]).
      pose proof (titleSimilarity_lt_1 searchTerm m0 Hm0) as Hlt0.
      destruct (Rgt_dec _ highest) as [_|_].
      * destruct (IH (Some m0) _ Hlt0 Hrest) as (before & m & after & -> & Hb & Hm & Hfold).
        exists (m0 :: before), m, after. repeat split; try assumption.
        now constructor.
      * destruct (IH best _ Hlt Hrest) as (before & m & after & -> & Hb & Hm & Hfold).
        exists (m0 :: before), m, after. repeat split; try assumption.
        now constructor.
Qed.

(** With an empty trimmed search term the first entry wins with 0.85. *)
Lemma resolver_empty_search (first : Movie) (rest : list Movie) :
  trim (toLowerCase searchTerm) = [] ->
  Forall (fun m => title m <> []) (first :: rest) ->
  fold_left step (first :: rest) (None, 0%R) = (Some first, 0.85%R).
Proof.
  intros Hempty Htitles. inversion Htitles as [|? ? Hfirst Hrest]; subst.
  simpl. rewrite (titleSimilarity_empty_search _ _ Hempty Hfirst).
  destruct (Rgt_dec 0.85 0) as [_|Hn]; [|lra].
  clear Htitles Hfirst. induction Hrest as [|m rest Hm _ IH]; simpl; [reflexivity|].
  rewrite (titleSimilarity_empty_search _ _ Hempty Hm).
  destruct (Rgt_dec 0.85 0.85) as [Hgt|_]; [lra | exact IH].
Qed.
End Resolver.

(** Evaluation of the discrete parts of a score on a concrete input. *)
Ltac eval_discrete :=
  repeat match goal with
         | |- context [includes ?a ?b] =>
             let v := eval vm_compute in (includes a b) in
             change (includes a b) with v; cbv iota
         | |- context [@length ?A ?l] =>
             lazymatch l with
             | _ :: _ => fail
             | [] => fail
             | _ => let v := eval vm_compute in (@length A l) in
                    change (@length A l) with v
             end
         end.

(** C6 as stated fails: the title ["Up "] equals the search term ["up "]
    without regard to case, the search term is trimmed and the title is not,
    and the match comes from the substring strategy with confidence 0.95. *)
Lemma findClosestMatch_padded_title :
  toLowerCase (title upPadded) = toLowerCase (js "up ") /\
  Algorithms.findClosestMatch [upPadded] (js "up ") = (Some upPadded, 0.95%R) /\
  snd (Algorithms.findClosestMatch [upPadded] (js "up ")) <> 1%R.
Proof.
  assert (Hscore : Algorithms.titleSimilarity (js "up ") upPadded = 0.95%R).
  { unfold Algorithms.titleSimilarity. cbv zeta.
    destruct (decide _) as [Heq|_]; [vm_compute in Heq; discriminate|].
    eval_discrete. simpl INR. lra. }
  assert (Hrun : Algorithms.findClosestMatch [upPadded] (js "up ")
                 = (Some upPadded, 0.95%R)).
  { rewrite findClosestMatch_loop. simpl fold_left. rewrite Hscore.
    destruct (Rgt_dec 0.95 0) as [_|Hn]; [reflexivity | lra]. }
  split; [reflexivity|]. split; [exact Hrun|]. rewrite Hrun. simpl. lra.
Qed.

(** C6, amended: when some catalog entry has a lower-cased title equal to
    the lower-cased search term with its leading and trailing white space
    removed, the resolver returns the first such entry with confidence 1. *)
Theorem findClosestMatch_exact_title (movies : list Movie) (searchTerm : jsstring) :
  Exists (fun m => toLowerCase (title m) = trim (toLowerCase searchTerm)) movies ->
  exists before m after,
    movies = before ++ m :: after /\
    Forall (fun m' => toLowerCase (title m') <> trim (toLowerCase searchTerm)) before /\
    toLowerCase (title m) = trim (toLowerCase searchTerm) /\
    Algorithms.findClosestMatch movies searchTerm = (Some m, 1%R).
Proof.
  intros Hex. rewrite findClosestMatch_loop.
  apply (resolver_finds_exact searchTerm movies None 0%R); [lra | exact Hex].
Qed.

(** [" star WARS "] resolves to the second entry of the catalog. *)
Lemma findClosestMatch_exact_title_witness :
  exists before m after,
    [alien; starWars] = before ++ m :: after /\
    Forall (fun m' => toLowerCase (title m') <> trim (toLowerCase (js " star WARS "))) before /\
    toLowerCase (title m) = trim (toLowerCase (js " star WARS ")) /\
    Algorithms.findClosestMatch [alien; starWars] (js " star WARS ") = (Some m, 1%R).
Proof.
  apply (findClosestMatch_exact_title [alien; starWars] (js " star WARS ")).
  apply Exists_cons_tl, Exists_cons_hd. vm_compute. reflexivity.
Defined.

(** C10: in a non-empty catalog whose titles are all non-empty, a search
    term that is empty or made of white space returns the first entry with
    confidence 0.85. *)
Theorem findClosestMatch_blank_search
    (first : Movie) (rest : list Movie) (searchTerm : jsstring) :
  Forall (fun c => isSpace c = true) searchTerm ->
  Forall (fun m => title m <> []) (first :: rest) ->
  Algorithms.findClosestMatch (first :: rest) searchTerm = (Some first, 0.85%R).
Proof.
  intros Hblank Htitles. rewrite findClosestMatch_loop.
  apply (resolver_empty_search searchTerm first rest); [|exact Htitles].
  now apply trim_toLowerCase_spaces.
Qed.

(** Two spaces resolve to the first entry of the catalog. *)
Lemma findClosestMatch_blank_search_witness :
  Algorithms.findClosestMatch [alien; starWars] (js "  ") = (Some alien, 0.85%R).
Proof.
  apply (findClosestMatch_blank_search alien [starWars] (js "  ")).
  - repeat constructor.
  - repeat constructor; discriminate.
Defined.

(** ** The normalization cache *)

(** A cache that holds results of [preprocessText] returns them and stays
    such a cache: the cache changes no result. *)
Lemma preprocessTextCached_transparent
    (cache : list (jsstring * list jsstring)) (text : jsstring) :
  Forall (fun e => snd e = Algorithms.preprocessText (fst e)) cache ->
  fst (Algorithms.preprocessTextCached cache text) = Algorithms.preprocessText text /\
  Forall (fun e => snd e = Algorithms.preprocessText (fst e))
         (snd (Algorithms.preprocessTextCached cache text)).
Proof.
  intros Hcache. unfold Algorithms.preprocessTextCached.
  destruct (find _ cache) as [e|] eqn:Hfind.
  - apply find_some in Hfind as [Hin Hkey].
    apply bool_decide_eq_true in Hkey. simpl. split; [|exact Hcache].
    rewrite <- Hkey. apply list_elem_of_In in Hin.
    exact (proj1 (Forall_forall _ _) Hcache e Hin).
  - cbv zeta. destruct (_ <? 1000); simpl; split; try reflexivity; try exact Hcache.
    apply Forall_app. split; [exact Hcache|]. now repeat constructor.
Qed.

(** ** The three similarities and the unit interval *)

(** Jaccard and cosine similarity are always in [0,1]; the Levenshtein
    similarity is at most 1, and at least 0 for strings without U+0130. *)
Lemma similarities_in_unit_interval (a b : jsstring) :
  (0 <= Algorithms.jaccardSimilarity a b <= 1)%R /\
  (0 <= Algorithms.cosineSimilarity a b <= 1)%R /\
  (Algorithms.levenshteinSimilarity a b <= 1)%R /\
  (Forall (fun c => c <> 304%N) (a ++ b) ->
   (0 <= Algorithms.levenshteinSimilarity a b)%R).
Proof.
  split; [apply jaccardSimilarity_range|].
  split; [apply cosineSimilarity_range|].
  split; [apply levenshteinSimilarity_le_1|].
  intros Hab. apply Forall_app in Hab as [Ha Hb].
  apply levenshteinSimilarity_range; now apply length_toLowerCase.
Qed.

(** ** [js/algorithms.js] *)

Lemma Js_combinedSimilarity_weights (str1 str2 : jsstring) :
  JsAlgorithms.combinedSimilarity str1 str2 =
    (0.5 * JsAlgorithms.cosineSimilarity str1 str2
     + 0.3 * JsAlgorithms.jaccardSimilarity str1 str2
     + 0.2 * JsAlgorithms.levenshteinSimilarity str1 str2)%R
  /\ (0.5 + 0.3 + 0.2 = 1)%R.
Proof. unfold JsAlgorithms.combinedSimilarity. cbv zeta. split; lra. Qed.

Lemma Js_calculateMovieSimilarity_weights
    (movie : Movie) (query algorithm : jsstring) (referenceMovie : Movie) :
  JsAlgorithms.calculateMovieSimilarity movie query algorithm (Some referenceMovie) =
    (0.365 * JsAlgorithms.calculateMovieSimilarity movie query algorithm None
     + 0.25 * JsAlgorithms.genreSimilarity (genre movie) (genre referenceMovie)
     + 0.35 * JsAlgorithms.ratingSimilarity (rating movie) (rating referenceMovie)
     + 0.035 * JsAlgorithms.directorSimilarity (director movie) (director referenceMovie))%R.
Proof. unfold JsAlgorithms.calculateMovieSimilarity. cbv zeta. lra. Qed.

Lemma Js_getRecommendations_excludes_bounded_sorted
    (movies : list Movie) (selectedMovie : Movie) (algorithm : jsstring) (topN : nat) :
  let out := JsAlgorithms.getRecommendations movies selectedMovie algorithm topN in
  Forall (fun r => id (recommended r) <> id selectedMovie) out /\
  length out <= topN /\
  StronglySorted (fun a b => (similarityScore b <= similarityScore a)%R) out.
Proof.
  intros out. unfold out, JsAlgorithms.getRecommendations. cbv zeta.
  split; [|split].
  - apply (Forall_take_sortBy similarityScore).
    apply Forall_forall. intros r Hr.
    apply list_elem_of_In, in_map_iff in Hr as (m & <- & Hm). simpl.
    apply filter_In in Hm as [_ Hm].
    apply negb_true_iff, bool_decide_eq_false in Hm. exact Hm.
  - apply length_take_le_n.
  - apply (take_sortBy_sorted similarityScore).
Qed.

Lemma Js_levenshteinSimilarity_le_1 (str1 str2 : jsstring) :
  (JsAlgorithms.levenshteinSimilarity str1 str2 <= 1)%R.
Proof.
  unfold JsAlgorithms.levenshteinSimilarity. cbv zeta.
  destruct (Nat.eqb_spec (Nat.max (length str1) (length str2)) 0) as [|Hmax]; [lra|].
  assert (0 <= INR (JsAlgorithms.levenshteinDistance str1 str2)
               / INR (Nat.max (length str1) (length str2)))%R; [|lra].
  apply Rmult_le_pos; [apply pos_INR|].
  left. apply Rinv_0_lt_compat, lt_0_INR. lia.
Qed.

Lemma Js_levenshteinSimilarity_exact (str1 str2 : jsstring) :
  toLowerCase str1 = toLowerCase str2 ->
  JsAlgorithms.levenshteinSimilarity str1 str2 = 1%R.
Proof.
  intros Heq. unfold JsAlgorithms.levenshteinSimilarity. cbv zeta.
  rewrite matrix_levenshteinDistance, Heq, editCell_diag.
  destruct (_ =? 0); [reflexivity|]. simpl INR. unfold Rdiv. lra.
Qed.

Lemma Js_levenshteinSimilarity_lt_1 (str1 str2 : jsstring) :
  toLowerCase str1 <> toLowerCase str2 ->
  (JsAlgorithms.levenshteinSimilarity str1 str2 < 1)%R.
Proof.
  intros Hne. unfold JsAlgorithms.levenshteinSimilarity. cbv zeta.
  destruct (Nat.eqb_spec (Nat.max (length str1) (length str2)) 0) as [Hmax|Hmax].
  - exfalso. apply Hne. destruct str1, str2; simpl in Hmax; try lia. reflexivity.
  - assert (Hd : 0 < JsAlgorithms.levenshteinDistance str1 str2).
    { rewrite matrix_levenshteinDistance.
      destruct (editCell _ _ _ _) eqn:Hcell; [|lia].
      now apply editCell_zero_eq in Hcell. }
    assert (0 < INR (JsAlgorithms.levenshteinDistance str1 str2)
                / INR (Nat.max (length str1) (length str2)))%R; [|lra].
    apply Rmult_lt_0_compat; [now apply lt_0_INR|].
    apply Rinv_0_lt_compat, lt_0_INR. lia.
Qed.

(** In [js/algorithms.js] the resolver compares by Levenshtein similarity
    alone, and returns the first entry whose lower-cased title is the
    lower-cased search term, with confidence 1. *)
Lemma Js_findClosestMatch_exact_title (movies : list Movie) (searchTerm : jsstring) :
  Exists (fun m => toLowerCase (title m) = toLowerCase searchTerm) movies ->
  exists before m after,
    movies = before ++ m :: after /\
    Forall (fun m' => toLowerCase (title m') <> toLowerCase searchTerm) before /\
    toLowerCase (title m) = toLowerCase searchTerm /\
    JsAlgorithms.findClosestMatch movies searchTerm = (Some m, 1%R).
Proof.
  unfold JsAlgorithms.findClosestMatch.
  assert (Hkeep : forall l best,
             fold_left (fun '(bestMatch, highestSimilarity) movie =>
               let similarity := JsAlgorithms.levenshteinSimilarity (title movie) searchTerm in
               if Rgt_dec similarity highestSimilarity then (Some movie, similarity)
               else (bestMatch, highestSimilarity)) l (best, 1%R) = (best, 1%R)).
  { induction l as [|m l IH]; intros best; simpl; [reflexivity|].
    pose proof (Js_levenshteinSimilarity_le_1 (title m) searchTerm).
    destruct (Rgt_dec _ 1); [lra | apply IH]. }
  assert (Hgen : forall l highest best,
             (highest < 1)%R ->
             Exists (fun m => toLowerCase (title m) = toLowerCase searchTerm) l ->
             exists before m after,
               l = before ++ m :: after /\
               Forall (fun m' => toLowerCase (title m') <> toLowerCase searchTerm) before /\
               toLowerCase (title m) = toLowerCase searchTerm /\
               fold_left (fun '(bestMatch, highestSimilarity) movie =>
                 let similarity :=
                   JsAlgorithms.levenshteinSimilarity (title movie) searchTerm in
                 if Rgt_dec similarity highestSimilarity then (Some movie, similarity)
                 else (bestMatch, highestSimilarity)) l (best, highest) = (Some m, 1%R));
    [|intros Hex; apply Hgen; [lra | exact Hex]].
  clear movies.
  induction l as [|m0 movies IH]; intros highest best Hlt Hex; [inversion Hex|].
  simpl. destruct (decide (toLowerCase (title m0) = toLowerCase searchTerm)) as [Hm0|Hm0].
  - exists [], m0, movies. split; [reflexivity|]. split; [constructor|].
    split; [exact Hm0|].
    rewrite (Js_levenshteinSimilarity_exact _ _ Hm0).
    destruct (Rgt_dec 1 highest); [apply Hkeep | lra].
  - assert (Hrest : Exists (fun m => toLowerCase (title m) = toLowerCase searchTerm) movies)
      by (inversion Hex; [contradiction | assumption]).
    pose proof (Js_levenshteinSimilarity_lt_1 _ _ Hm0) as Hlt0.
    destruct (Rgt_dec _ highest).
    + destruct (IH _ (Some m0) Hlt0 Hrest) as (before & m & after & -> & Hb & Hm & Hfold).
      exists (m0 :: before), m, after. repeat split; try assumption. now constructor.
    + destruct (IH _ best Hlt Hrest) as (before & m & after & -> & Hb & Hm & Hfold).
      exists (m0 :: before), m, after. repeat split; try assumption. now constructor.
Qed.

(** ** Term frequencies *)

Lemma mapGet_mapSet (m : jsmap) (k k' : jsstring) (v : nat) :
  mapGet (mapSet m k v) k' = if decide (k = k') then Some v else mapGet m k'.
Proof.
  induction m as [|[k0 v0] m IH]; simpl.
  - destruct (decide (k = k')); reflexivity.
  - destruct (decide (k0 = k)) as [->|Hk0]; simpl.
    + destruct (decide (k = k')); reflexivity.
    + destruct (decide (k0 = k')) as [->|Hk0'].
      * destruct (decide (k = k')); [congruence | reflexivity].
      * exact IH.
Qed.

(** The frequency map holds, for every word, its number of occurrences. *)
Lemma frequencies_count (words : list jsstring) (w : jsstring) :
  Algorithms.getOr0 (Algorithms.frequencies words) w
  = length (List.filter (fun x => bool_decide (x = w)) words).
Proof.
  unfold Algorithms.frequencies.
  assert (Hgen : forall (freq : jsmap),
             Algorithms.getOr0
               (fold_left (fun freq word =>
                             mapSet freq word (Algorithms.getOr0 freq word + 1)) words freq) w
             = Algorithms.getOr0 freq w
               + length (List.filter (fun x => bool_decide (x = w)) words)).
  { induction words as [|x words IH]; intros freq; simpl; [lia|].
    rewrite IH. unfold Algorithms.getOr0 at 1. rewrite mapGet_mapSet.
    destruct (decide (x = w)) as [->|Hx].
    - rewrite bool_decide_eq_true_2 by reflexivity. simpl. lia.
    - rewrite bool_decide_eq_false_2 by exact Hx. reflexivity. }
  rewrite Hgen. reflexivity.
Qed.

(** ** The worked examples of the specification *)

Example levenshteinDistance_cat_cut :
  Algorithms.levenshteinDistance (js "cat") (js "cut") = 1.
Proof. vm_compute. reflexivity. Qed.

Example levenshteinSimilarity_cat_cut :
  Algorithms.levenshteinSimilarity (js "cat") (js "cut") = (1 - 1 / 3)%R.
Proof.
  unfold Algorithms.levenshteinSimilarity. cbv zeta.
  rewrite levenshteinDistance_cat_cut. simpl. lra.
Qed.

Example jaccardSimilarity_great_movie :
  Algorithms.jaccardSimilarity (js "the great movie") (js "a great film") = (1 / 3)%R.
Proof.
  rewrite jaccardSimilarity_value. cbv zeta. eval_discrete. simpl. lra.
Qed.

Example similarities_of_empty_texts :
  Algorithms.levenshteinSimilarity (js "") (js "") = 1%R /\
  Algorithms.jaccardSimilarity (js "") (js "") = 0%R /\
  Algorithms.cosineSimilarity (js "") (js "") = 0%R.
Proof.
  split; [apply levenshteinSimilarity_same|]. split.
  - rewrite jaccardSimilarity_value. cbv zeta. eval_discrete. reflexivity.
  - rewrite cosineSimilarity_value. cbv zeta. eval_discrete. reflexivity.
Qed.

(** * Further properties of the algorithms module *)

(** ** The text normalizer *)

Lemma splitFrom_after_separator (sep : codeunit -> bool) (p : jsstring -> bool)
    (y : jsstring) :
  p [] = false ->
  List.filter p (splitFrom sep y true) = List.filter p (splitFrom sep y false).
Proof.
  intros Hp. destruct y as [|c y]; [reflexivity|]. simpl.
  destruct (sep c); [|reflexivity]. simpl. now rewrite Hp.
Qed.

(** Fields on either side of a separator: up to empty fields, those of the
    left part followed by those of the right part. *)
Lemma splitFrom_app_separator (sep : codeunit -> bool) (p : jsstring -> bool)
    (c : codeunit) (y : jsstring) :
  sep c = true -> p [] = false ->
  forall (x : jsstring) (f : bool),
    exists fields,
      splitFrom sep (x ++ c :: y) f = fields ++ splitFrom sep y true /\
      List.filter p fields = List.filter p (splitFrom sep x f) /\
      (f = false ->
       exists w ws ws', fields = w :: ws /\ splitFrom sep x f = w :: ws').
Proof.
  intros Hc Hp. induction x as [|d x IH]; intros f.
  - simpl. rewrite Hc. destruct f.
    + exists []. simpl. rewrite Hp. split; [reflexivity|]. split; [reflexivity|discriminate].
    + exists [[]]. split; [reflexivity|]. split; [reflexivity|].
      intros _. now exists [], [], [].
  - simpl. destruct (sep d) eqn:Hd.
    + destruct (IH true) as (fields & Hsplit & Hfilter & _). destruct f.
      * exists fields. split; [exact Hsplit|]. split; [exact Hfilter | discriminate].
      * exists ([] :: fields). rewrite Hsplit. split; [reflexivity|].
        split; [simpl; now rewrite Hp|].
        intros _. now exists [], fields, (splitFrom sep x true).
    + destruct (IH false) as (fields & Hsplit & Hfilter & Hhead).
      destruct (Hhead eq_refl) as (w & ws & ws' & -> & Hx).
      rewrite Hsplit, Hx. simpl.
      exists ((d :: w) :: ws). split; [reflexivity|]. split.
      * rewrite Hx in Hfilter. simpl in Hfilter. simpl.
        destruct (p w); destruct (p (d :: w)); try injection Hfilter as Hfilter;
          now rewrite ?Hfilter.
      * intros _. now exists (d :: w), ws, ws'.
Qed.

Lemma filter_split_app (sep : codeunit -> bool) (p : jsstring -> bool)
    (c : codeunit) (x y : jsstring) :
  sep c = true -> p [] = false ->
  List.filter p (split sep (x ++ c :: y))
  = List.filter p (split sep x) ++ List.filter p (split sep y).
Proof.
  intros Hc Hp. unfold split.
  destruct (splitFrom_app_separator sep p c y Hc Hp x false) as (fields & -> & Hf & _).
  now rewrite List.filter_app, Hf, splitFrom_after_separator.
Qed.

Lemma toLowerCase_app (x y : jsstring) :
  toLowerCase (x ++ y) = toLowerCase x ++ toLowerCase y.
Proof. unfold toLowerCase. now rewrite List.map_app, concat_app. Qed.

Lemma preprocessText_app (a b : jsstring) :
  Algorithms.preprocessText (a ++ 32%N :: b)
  = Algorithms.preprocessText a ++ Algorithms.preprocessText b.
Proof.
  unfold Algorithms.preprocessText.
  change (a ++ 32%N :: b) with (a ++ [32%N] ++ b).
  rewrite !toLowerCase_app. change (toLowerCase [32%N]) with [32%N].
  now apply filter_split_app.
Qed.

Lemma split_spaces (s : jsstring) (f : bool) :
  Forall (fun c => isSpace c = true) s ->
  Forall (fun w => w = []) (splitFrom isSpace s f).
Proof.
  intros Hs. revert f. induction Hs as [|c s Hc _ IH]; intros f; simpl.
  - now repeat constructor.
  - rewrite Hc. destruct f; [apply IH|]. constructor; [reflexivity | apply IH].
Qed.

Lemma preprocessText_blank (text : jsstring) :
  Forall (fun c => isSpace c = true) text -> Algorithms.preprocessText text = [].
Proof.
  intros Hs. unfold Algorithms.preprocessText.
  rewrite toLowerCase_spaces by exact Hs.
  pose proof (split_spaces text false Hs) as Hfields. unfold split.
  induction Hfields as [|w ws -> _ IH]; [reflexivity | exact IH].
Qed.

(** X1: the tokens of two texts joined by a space are the tokens of the
    first followed by the tokens of the second; in the text that
    [calculateMovieSimilarity] compares, every word therefore counts twice
    for the description and once for the genre labels. *)
Theorem movieText_counts_description_twice (a b : jsstring) (movie : Movie) (word : jsstring) :
  Algorithms.preprocessText (a ++ 32%N :: b)
  = Algorithms.preprocessText a ++ Algorithms.preprocessText b /\
  Algorithms.getOr0 (Algorithms.frequencies (Algorithms.preprocessText (movieText movie))) word
  = 2 * Algorithms.getOr0
          (Algorithms.frequencies (Algorithms.preprocessText (description movie))) word
    + Algorithms.getOr0
        (Algorithms.frequencies (Algorithms.preprocessText (join (genre movie)))) word.
Proof.
  split; [apply preprocessText_app|].
  unfold movieText. rewrite !preprocessText_app, !frequencies_count.
  rewrite !List.filter_app, !length_app. lia.
Qed.

(** X2: a text that is empty or made of white space has no tokens, and its
    Jaccard and cosine similarity to any text, on either side, is 0. *)
Theorem blank_text_has_no_similarity (blank other : jsstring) :
  Forall (fun c => isSpace c = true) blank ->
  Algorithms.preprocessText blank = [] /\
  Algorithms.jaccardSimilarity blank other = 0%R /\
  Algorithms.jaccardSimilarity other blank = 0%R /\
  Algorithms.cosineSimilarity blank other = 0%R /\
  Algorithms.cosineSimilarity other blank = 0%R.
Proof.
  intros Hblank. pose proof (preprocessText_blank blank Hblank) as Hnone.
  split; [exact Hnone|].
  rewrite (jaccardSimilarity_sym other blank), (cosineSimilarity_sym other blank).
  rewrite jaccardSimilarity_value, cosineSimilarity_value. cbv zeta.
  rewrite Hnone. simpl. repeat split; reflexivity.
Qed.

Lemma blank_text_has_no_similarity_witness :
  Algorithms.preprocessText (js "   ") = [] /\
  Algorithms.jaccardSimilarity (js "   ") (js "great movie") = 0%R /\
  Algorithms.jaccardSimilarity (js "great movie") (js "   ") = 0%R /\
  Algorithms.cosineSimilarity (js "   ") (js "great movie") = 0%R /\
  Algorithms.cosineSimilarity (js "great movie") (js "   ") = 0%R.
Proof.
  apply (blank_text_has_no_similarity (js "   ") (js "great movie")).
  repeat constructor.
Defined.

(** ** The normalization cache *)



(** ** Sets built from lists *)

Lemma newSet_NoDup_app (l seen : list jsstring) :
  NoDup (seen ++ l) -> newSet l seen = seen ++ l.
Proof.
  revert seen. induction l as [|x l IH]; intros seen Hnd; simpl.
  - now rewrite app_nil_r.
  - apply NoDup_app in Hnd as Hparts. destruct Hparts as (_ & Hdisj & _).
    case_bool_decide as Hx.
    + exfalso. apply (Hdisj x Hx). now left.
    + rewrite IH; rewrite <- app_assoc; [reflexivity | exact Hnd].
Qed.

Lemma newSet_NoDup (l : list jsstring) : NoDup l -> newSet l [] = l.
Proof. intros Hnd. now apply (newSet_NoDup_app l []). Qed.

(** Distinct elements, all found in another list: not more of them. *)
Lemma NoDup_subset_length (l k : list jsstring) :
  NoDup l -> (forall x, x ∈ l -> x ∈ k) -> length l <= length k.
Proof.
  intros Hnd Hsub. apply NoDup_ListNoDup in Hnd.
  apply (List.NoDup_incl_length Hnd). intros x Hx.
  apply list_elem_of_In, Hsub, list_elem_of_In, Hx.
Qed.

Lemma same_elements_length (l k : list jsstring) :
  NoDup l -> NoDup k -> (forall x, x ∈ l <-> x ∈ k) -> length l = length k.
Proof. intros Hl Hk Hlk. now apply Permutation_length, NoDup_Permutation. Qed.

(** ** Genre similarity *)

Section Genres.
Variables genres1 genres2 : list jsstring.

Let set1 := newSet (List.map toLowerCase genres1) [].
Let set2 := newSet (List.map toLowerCase genres2) [].

(** The value outside the two early returns; the guard on the union is
    never taken there. *)
Lemma genreSimilarity_value :
  genres1 <> [] -> genres2 <> [] ->
  Algorithms.genreSimilarity genres1 genres2
  = (INR (length (List.filter (has set2) set1))
     / INR (length (newSet (set1 ++ set2) [])))%R
  /\ 0 < length (newSet (set1 ++ set2) []).
Proof.
  intros H1 H2. unfold Algorithms.genreSimilarity. fold set1 set2.
  destruct genres1 as [|g1 gs1] eqn:Hg1; [contradiction|].
  destruct genres2 as [|g2 gs2] eqn:Hg2; [contradiction|].
  simpl orb. cbv iota zeta.
  assert (Hin : toLowerCase g1 ∈ newSet (set1 ++ set2) []).
  { apply elem_of_newSet. right. apply elem_of_app. left.
    unfold set1. apply elem_of_newSet. right. simpl. now left. }
  assert (Hpos : 0 < length (newSet (set1 ++ set2) [])).
  { destruct (newSet (set1 ++ set2) []); [now apply elem_of_nil in Hin | simpl; lia]. }
  split; [|exact Hpos].
  destruct (Nat.eqb_spec (length (newSet (set1 ++ set2) [])) 0) as [H0|_]; [lia|].
  rewrite newSet_NoDup; [reflexivity|].
  apply NoDup_List_filter, NoDup_newSet, NoDup_nil. exact I.
Qed.
End Genres.

Lemma NoDup_lowered (genres : list jsstring) :
  NoDup (newSet (List.map toLowerCase genres) []).
Proof. apply NoDup_newSet, NoDup_nil. exact I. Qed.

Lemma genreSimilarity_empty (genres1 genres2 : list jsstring) :
  genres1 = [] \/ genres2 = [] -> Algorithms.genreSimilarity genres1 genres2 = 0%R.
Proof.
  unfold Algorithms.genreSimilarity. intros [->| ->]; simpl; [reflexivity|].
  now rewrite orb_true_r.
Qed.

Lemma genreSimilarity_range (genres1 genres2 : list jsstring) :
  (0 <= Algorithms.genreSimilarity genres1 genres2 <= 1)%R.
Proof.
  destruct genres1 as [|g1 gs1]; [rewrite genreSimilarity_empty by (now left); lra|].
  destruct genres2 as [|g2 gs2]; [rewrite genreSimilarity_empty by (now right); lra|].
  destruct (genreSimilarity_value (g1 :: gs1) (g2 :: gs2)) as [-> Hpos]; try discriminate.
  apply ratio_in_unit_interval; [|now apply lt_0_INR].
  split; [apply pos_INR|]. apply le_INR, NoDup_subset_length.
  - apply NoDup_List_filter, NoDup_lowered.
  - intros x Hx. apply elem_of_List_filter in Hx as [Hx _].
    apply elem_of_newSet. right. apply elem_of_app. now left.
Qed.

Lemma genreSimilarity_sym (genres1 genres2 : list jsstring) :
  Algorithms.genreSimilarity genres1 genres2 = Algorithms.genreSimilarity genres2 genres1.
Proof.
  destruct genres1 as [|g1 gs1];
    [rewrite !genreSimilarity_empty by (now left + now right); reflexivity|].
  destruct genres2 as [|g2 gs2];
    [rewrite !genreSimilarity_empty by (now left + now right); reflexivity|].
  destruct (genreSimilarity_value (g1 :: gs1) (g2 :: gs2)) as [-> _]; try discriminate.
  destruct (genreSimilarity_value (g2 :: gs2) (g1 :: gs1)) as [-> _]; try discriminate.
  rewrite (common_count_sym _ _ (NoDup_lowered (g1 :: gs1)) (NoDup_lowered (g2 :: gs2))).
  now rewrite (Permutation_length (allWords_Permutation _ _)).
Qed.

(** X4: the genre similarity lies in [0,1], is symmetric, and is 0 when
    either list is empty. *)
Theorem genreSimilarity_interval_symmetric (genres1 genres2 : list jsstring) :
  (0 <= Algorithms.genreSimilarity genres1 genres2 <= 1)%R /\
  Algorithms.genreSimilarity genres1 genres2 = Algorithms.genreSimilarity genres2 genres1 /\
  Algorithms.genreSimilarity [] genres2 = 0%R /\
  Algorithms.genreSimilarity genres1 [] = 0%R.
Proof.
  split; [apply genreSimilarity_range|]. split; [apply genreSimilarity_sym|].
  split; apply genreSimilarity_empty; [now left | now right].
Qed.

(** X5: two non-empty genre lists with the same labels, whatever their
    case, order and repetitions, have similarity 1; so has a non-empty list
    with itself. *)
Theorem genreSimilarity_same_labels (genres1 genres2 : list jsstring) :
  genres1 <> [] ->
  (forall label, label ∈ List.map toLowerCase genres1 <-> label ∈ List.map toLowerCase genres2) ->
  Algorithms.genreSimilarity genres1 genres2 = 1%R /\
  Algorithms.genreSimilarity genres1 genres1 = 1%R.
Proof.
  intros Hne Hsame.
  assert (Hgen : forall g1 g2 : list jsstring,
             g1 <> [] ->
             (forall label, label ∈ List.map toLowerCase g1 <-> label ∈ List.map toLowerCase g2) ->
             Algorithms.genreSimilarity g1 g2 = 1%R).
  { clear. intros g1 g2 Hne Hsame.
    assert (Hne2 : g2 <> []).
    { intros ->. destruct g1 as [|g gs]; [contradiction|].
      apply (elem_of_nil (toLowerCase g)), Hsame. simpl. now left. }
    destruct (genreSimilarity_value g1 g2 Hne Hne2) as [-> Hpos].
    set (set1 := newSet (List.map toLowerCase g1) []) in *.
    set (set2 := newSet (List.map toLowerCase g2) []) in *.
    assert (Hsets : forall x, x ∈ set1 <-> x ∈ set2).
    { intros x. unfold set1, set2. rewrite !elem_of_newSet, !elem_of_nil.
      specialize (Hsame x). tauto. }
    assert (Hall : List.filter (has set2) set1 = set1).
    { apply forallb_filter_id, forallb_forall. intros x Hx.
      apply has_true, Hsets, list_elem_of_In, Hx. }
    rewrite Hall.
    rewrite (same_elements_length (newSet (set1 ++ set2) []) set1).
    - apply Rdiv_diag, not_0_INR.
      rewrite <- (same_elements_length (newSet (set1 ++ set2) []) set1); [lia| | |].
      + apply NoDup_newSet, NoDup_nil. exact I.
      + apply NoDup_lowered.
      + intros x. rewrite elem_of_newSet, elem_of_app, elem_of_nil, <- Hsets. tauto.
    - apply NoDup_newSet, NoDup_nil. exact I.
    - apply NoDup_lowered.
    - intros x. rewrite elem_of_newSet, elem_of_app, elem_of_nil, <- Hsets. tauto. }
  split; [now apply Hgen | apply Hgen; [exact Hne | reflexivity]].
Qed.

Lemma genreSimilarity_same_labels_witness :
  Algorithms.genreSimilarity [js "Sci-Fi"; js "Horror"] [js "HORROR"; js "sci-fi"; js "Horror"]
  = 1%R /\
  Algorithms.genreSimilarity [js "Sci-Fi"; js "Horror"] [js "Sci-Fi"; js "Horror"] = 1%R.
Proof.
  apply (genreSimilarity_same_labels
           [js "Sci-Fi"; js "Horror"] [js "HORROR"; js "sci-fi"; js "Horror"]).
  - discriminate.
  - intros label.
    repeat match goal with
           | |- context [List.map toLowerCase ?l] =>
               let v := eval vm_compute in (List.map toLowerCase l) in
               change (List.map toLowerCase l) with v
           end.
    rewrite !elem_of_cons, !elem_of_nil. tauto.
Defined.

(** X6: two movies with a label in common, as the candidate filter of
    [getRecommendations] tests it, have a positive genre similarity. *)
Theorem shared_genre_scores (genres1 genres2 : list jsstring) (label : jsstring) :
  label ∈ genres1 -> label ∈ genres2 ->
  (0 < Algorithms.genreSimilarity genres1 genres2)%R.
Proof.
  intros H1 H2.
  assert (Hne1 : genres1 <> []) by (intros ->; now apply elem_of_nil in H1).
  assert (Hne2 : genres2 <> []) by (intros ->; now apply elem_of_nil in H2).
  destruct (genreSimilarity_value genres1 genres2 Hne1 Hne2) as [-> Hpos].
  apply Rdiv_lt_0_compat; [|now apply lt_0_INR].
  apply lt_0_INR.
  assert (Hin : toLowerCase label
                ∈ List.filter (has (newSet (List.map toLowerCase genres2) []))
                              (newSet (List.map toLowerCase genres1) [])).
  { apply elem_of_List_filter. split.
    - apply elem_of_newSet. right. apply list_elem_of_In, in_map, list_elem_of_In, H1.
    - apply has_true, elem_of_newSet. right.
      apply list_elem_of_In, in_map, list_elem_of_In, H2. }
  destruct (List.filter _ _); [now apply elem_of_nil in Hin | simpl; lia].
Qed.

Lemma shared_genre_scores_witness :
  (0 < Algorithms.genreSimilarity (genre starWars) (genre alien))%R.
Proof.
  apply (shared_genre_scores (genre starWars) (genre alien) (js "Sci-Fi")).
  - simpl. now left.
  - simpl. now left.
Defined.

(** ** Rating and director similarity *)

(** X7: the rating similarity is symmetric, at most 1, exactly 1 for equal
    ratings only, and at least 0 for two ratings between 0 and 10. *)
Theorem ratingSimilarity_properties (rating1 rating2 : R) :
  Algorithms.ratingSimilarity rating1 rating2 = Algorithms.ratingSimilarity rating2 rating1 /\
  (Algorithms.ratingSimilarity rating1 rating2 <= 1)%R /\
  (Algorithms.ratingSimilarity rating1 rating2 = 1%R <-> rating1 = rating2) /\
  ((0 <= rating1 <= 10)%R -> (0 <= rating2 <= 10)%R ->
   (0 <= Algorithms.ratingSimilarity rating1 rating2)%R).
Proof.
  unfold Algorithms.ratingSimilarity. cbv zeta.
  rewrite (Rabs_minus_sym rating2 rating1).
  pose proof (Rabs_pos (rating1 - rating2)) as Hpos.
  split; [reflexivity|]. split; [lra|]. split; [split|].
  - intros H1. assert (H0 : Rabs (rating1 - rating2) = 0%R) by lra.
    destruct (Req_dec_T (rating1 - rating2) 0) as [Hz|Hnz]; [lra|].
    apply Rabs_no_R0 in Hnz. contradiction.
  - intros ->. rewrite Rminus_diag, Rabs_R0. lra.
  - intros H1 H2.
    assert (Rabs (rating1 - rating2) <= 10)%R by (apply Rabs_le; lra). lra.
Qed.

Lemma ratingSimilarity_range (rating1 rating2 : R) :
  (0 <= rating1 <= 10)%R -> (0 <= rating2 <= 10)%R ->
  (0 <= Algorithms.ratingSimilarity rating1 rating2 <= 1)%R.
Proof.
  intros H1 H2. unfold Algorithms.ratingSimilarity. cbv zeta.
  pose proof (Rabs_pos (rating1 - rating2)) as Hpos.
  assert (Rabs (rating1 - rating2) <= 10)%R by (apply Rabs_le; lra). lra.
Qed.

Lemma ratingSimilarity_properties_witness :
  (0 <= Algorithms.ratingSimilarity 8.6 8.5)%R.
Proof.
  apply (ratingSimilarity_properties 8.6 8.5); lra.
Defined.

Lemma directorSimilarity_range (director1 director2 : option jsstring) :
  (0 <= Algorithms.directorSimilarity director1 director2 <= 1)%R.
Proof.
  unfold Algorithms.directorSimilarity.
  destruct (_ || _); [lra|]. destruct (bool_decide _); lra.
Qed.

(** X8: the director similarity is 0 or 1, symmetric, and 1 exactly when
    both directors are present, non-empty and equal without regard to case. *)
Theorem directorSimilarity_properties (director1 director2 : option jsstring) :
  (Algorithms.directorSimilarity director1 director2 = 0%R \/
   Algorithms.directorSimilarity director1 director2 = 1%R) /\
  Algorithms.directorSimilarity director1 director2
  = Algorithms.directorSimilarity director2 director1 /\
  (Algorithms.directorSimilarity director1 director2 = 1%R <->
   exists name1 name2,
     director1 = Some name1 /\ director2 = Some name2 /\
     name1 <> [] /\ name2 <> [] /\ toLowerCase name1 = toLowerCase name2).
Proof.
  unfold Algorithms.directorSimilarity. split; [|split].
  - destruct (_ || _); [now left|]. destruct (bool_decide _); [now right | now left].
  - rewrite (orb_comm (falsy director2)). destruct (_ || _); [reflexivity|].
    destruct (bool_decide_reflect (toLowerCase (default [] director1)
                                   = toLowerCase (default [] director2))) as [Heq|Hne].
    + now rewrite bool_decide_eq_true_2.
    + rewrite bool_decide_eq_false_2; [reflexivity | congruence].
  - split.
    + destruct director1 as [[|c1 n1]|]; simpl; try (intros H; lra).
      destruct director2 as [[|c2 n2]|]; simpl; try (intros H; lra).
      case_bool_decide as Heq; [|intros H; lra]. intros _.
      exists (c1 :: n1), (c2 :: n2). repeat split; try discriminate. exact Heq.
    + intros (name1 & name2 & -> & -> & Hn1 & Hn2 & Heq).
      destruct name1; [contradiction|]. destruct name2; [contradiction|]. simpl.
      now rewrite bool_decide_eq_true_2.
Qed.

Lemma directorSimilarity_properties_witness :
  Algorithms.directorSimilarity (Some (js "Ridley Scott")) (Some (js "RIDLEY SCOTT")) = 1%R.
Proof.
  apply (directorSimilarity_properties (Some (js "Ridley Scott")) (Some (js "RIDLEY SCOTT"))).
  exists (js "Ridley Scott"), (js "RIDLEY SCOTT").
  repeat split; try discriminate.
Defined.

(** ** Cosine similarity of a text with itself *)






(** ** Combined similarity and the score combiner *)

Lemma plain_app (a b : jsstring) : plain (a ++ b) <-> plain a /\ plain b.
Proof. unfold plain. apply Forall_app. Qed.

Lemma levenshteinSimilarity_plain (a b : jsstring) :
  plain a -> plain b -> (0 <= Algorithms.levenshteinSimilarity a b <= 1)%R.
Proof.
  intros Ha Hb. apply levenshteinSimilarity_range; now apply length_toLowerCase.
Qed.

Lemma combinedSimilarity_range (a b : jsstring) :
  plain a -> plain b -> (0 <= Algorithms.combinedSimilarity a b <= 1)%R.
Proof.
  intros Ha Hb. unfold Algorithms.combinedSimilarity. cbv zeta.
  pose proof (jaccardSimilarity_range a b).
  pose proof (cosineSimilarity_range a b).
  pose proof (levenshteinSimilarity_plain a b Ha Hb). lra.
Qed.



Lemma plain_join (labels : list jsstring) : Forall plain labels -> plain (join labels).
Proof.
  induction 1 as [|s l Hs Hl IH]; [constructor|].
  destruct l as [|s' l']; [exact Hs|].
  change (join (s :: s' :: l')) with (s ++ 32%N :: join (s' :: l')).
  apply plain_app. split; [exact Hs|]. constructor; [discriminate | exact IH].
Qed.

Lemma plain_movieText (movie : Movie) : inContract movie -> plain (movieText movie).
Proof.
  intros (_ & Hd & Hg). unfold movieText.
  apply plain_app. split; [exact Hd|]. constructor; [discriminate|].
  apply plain_app. split; [exact Hd|]. constructor; [discriminate|].
  now apply plain_join.
Qed.

Lemma plain_referenceText (movie : Movie) :
  inContract movie -> plain (description movie ++ 32%N :: join (genre movie)).
Proof.
  intros (_ & Hd & Hg). apply plain_app. split; [exact Hd|].
  constructor; [discriminate | now apply plain_join].
Qed.

Lemma textSimilarity_range (movie : Movie) (query algorithm : jsstring) :
  plain (movieText movie) -> plain query ->
  (0 <= Algorithms.calculateMovieSimilarity movie query algorithm None <= 1)%R.
Proof.
  intros Hm Hq. unfold Algorithms.calculateMovieSimilarity. cbv zeta.
  repeat destruct (decide _).
  - apply jaccardSimilarity_range.
  - apply cosineSimilarity_range.
  - now apply levenshteinSimilarity_plain.
  - now apply combinedSimilarity_range.
Qed.

Lemma calculateMovieSimilarity_range
    (movie : Movie) (query algorithm : jsstring) (referenceMovie : Movie) :
  inContract movie -> plain query -> (0 <= rating referenceMovie <= 10)%R ->
  (0 <= Algorithms.calculateMovieSimilarity movie query algorithm (Some referenceMovie)
   <= 1)%R.
Proof.
  intros Hm Hq Hr.
  pose proof (textSimilarity_range movie query algorithm (plain_movieText movie Hm) Hq)
    as Htext.
  unfold Algorithms.calculateMovieSimilarity in *. cbv zeta in *.
  pose proof (genreSimilarity_range (genre movie) (genre referenceMovie)).
  pose proof (ratingSimilarity_range (rating movie) (rating referenceMovie)
                (proj1 Hm) Hr).
  pose proof (directorSimilarity_range (director movie) (director referenceMovie)).
  lra.
Qed.


Ltac prove_plain := unfold plain; repeat constructor; discriminate.

Lemma inContract_starWars : inContract starWars.
Proof. split; [simpl; lra|]. split; [prove_plain|]. repeat constructor; discriminate. Qed.

Lemma inContract_alien : inContract alien.
Proof. split; [simpl; lra|]. split; [prove_plain|]. repeat constructor; discriminate. Qed.


(** ** The ranker *)

Lemma length_filter_implies {A : Type} (p q : A -> bool) (l : list A) :
  (forall x, p x = true -> q x = true) ->
  length (List.filter p l) <= length (List.filter q l).
Proof.
  intros Hpq. induction l as [|x l IH]; simpl; [lia|].
  destruct (p x) eqn:Hp.
  - rewrite (Hpq x Hp). simpl. lia.
  - destruct (q x); simpl; lia.
Qed.

Section Ranker.
Variables (movies : list Movie) (selectedMovie : Movie) (algorithm : jsstring) (topN : nat).

Let others : list Movie :=
  List.filter (fun movie => negb (bool_decide (id movie = id selectedMovie))) movies.

Let sameGenreMovies : list Movie :=
  List.filter
    (fun movie =>
       if decide (id movie = id selectedMovie) then false
       else existsb (fun g => bool_decide (g ∈ genre selectedMovie)) (genre movie))
    movies.

Let candidateMovies : list Movie :=
  if topN * 2 <=? length sameGenreMovies then sameGenreMovies else others.

(** The recommendations are the candidates, scored, sorted and cut. *)
Lemma getRecommendations_candidates :
  exists scored : list Recommendation,
    Algorithms.getRecommendations movies selectedMovie algorithm topN
    = take topN (sortBy (fun a b => (similarityScore b - similarityScore a)%R) scored) /\
    List.map recommended scored = candidateMovies /\
    Forall (fun r =>
              exists franchiseBonus : R,
                (0 <= franchiseBonus <= 0.25)%R /\
                similarityScore r =
                (Algorithms.calculateMovieSimilarity (recommended r)
                   (description selectedMovie ++ 32%N :: join (genre selectedMovie))
                   algorithm (Some selectedMovie) + franchiseBonus)%R) scored.
Proof.
  unfold Algorithms.getRecommendations. cbv zeta.
  fold others sameGenreMovies. fold candidateMovies.
  set (refTitleWords := List.filter _ (split _ (toLowerCase (title selectedMovie)))).
  eexists. split; [reflexivity|]. split.
  - rewrite List.map_map. simpl. apply List.map_id.
  - apply Forall_forall. intros r Hr.
    apply list_elem_of_In, in_map_iff in Hr as (m & <- & Hm). simpl.
    eexists. split; [|reflexivity].
    destruct (Nat.ltb_spec 0 (length refTitleWords)) as [Hlen|Hlen]; [|lra].
    pose proof (franchise_ratio_bound (includes (toLowerCase (title m))) refTitleWords Hlen)
      as Hbonus. cbv zeta in Hbonus.
    destruct (0 <? _); [exact Hbonus | lra].
Qed.

Lemma sameGenre_subset_others : length sameGenreMovies <= length others.
Proof.
  apply length_filter_implies. intros m.
  destruct (decide (id m = id selectedMovie)) as [Heq|Hne]; [discriminate|].
  intros _. now rewrite bool_decide_eq_false_2.
Qed.

Lemma candidates_in_catalog : forall m, m ∈ candidateMovies -> m ∈ movies.
Proof.
  intros m Hm. unfold candidateMovies in Hm.
  destruct (_ <=? _); apply elem_of_List_filter in Hm; tauto.
Qed.

Lemma length_candidates_cut : Nat.min topN (length candidateMovies) = Nat.min topN (length others).
Proof.
  unfold candidateMovies. pose proof sameGenre_subset_others.
  destruct (Nat.leb_spec (topN * 2) (length sameGenreMovies)); lia.
Qed.
End Ranker.

Lemma length_sortBy {A : Type} (score : A -> R) (l : list A) :
  length (sortBy (fun a b => (score b - score a)%R) l) = length l.
Proof. apply Permutation_length, (sortBy_Permutation score). Qed.

(** X12: every recommendation is a movie of the catalog, and their number
    is [topN], or the number of catalog entries with another identifier
    than the selected movie if that is smaller. *)
Theorem getRecommendations_from_catalog
    (movies : list Movie) (selectedMovie : Movie) (algorithm : jsstring) (topN : nat) :
  let out := Algorithms.getRecommendations movies selectedMovie algorithm topN in
  Forall (fun r => recommended r ∈ movies) out /\
  length out =
  Nat.min topN
    (length (List.filter (fun movie => negb (bool_decide (id movie = id selectedMovie)))
                         movies)).
Proof.
  intros out. unfold out.
  destruct (getRecommendations_candidates movies selectedMovie algorithm topN)
    as (scored & -> & Hcand & _).
  split.
  - apply (Forall_take_sortBy similarityScore).
    apply Forall_forall. intros r Hr.
    apply (candidates_in_catalog movies selectedMovie topN). rewrite <- Hcand.
    apply list_elem_of_In, in_map, list_elem_of_In, Hr.
  - rewrite length_take, length_sortBy.
    rewrite <- (length_candidates_cut movies selectedMovie topN), <- Hcand.
    now rewrite length_map.
Qed.

(** X13: when at least [2 * topN] catalog entries with another identifier
    share a genre label with the selected movie, every recommendation
    shares one, and there are exactly [topN] recommendations. *)
Theorem getRecommendations_same_genre
    (movies : list Movie) (selectedMovie : Movie) (algorithm : jsstring) (topN : nat) :
  topN * 2 <=
  length (List.filter
            (fun movie =>
               if decide (id movie = id selectedMovie) then false
               else existsb (fun g => bool_decide (g ∈ genre selectedMovie)) (genre movie))
            movies) ->
  let out := Algorithms.getRecommendations movies selectedMovie algorithm topN in
  Forall (fun r => exists g, g ∈ genre (recommended r) /\ g ∈ genre selectedMovie) out /\
  length out = topN.
Proof.
  intros Henough out. unfold out.
  destruct (getRecommendations_candidates movies selectedMovie algorithm topN)
    as (scored & -> & Hcand & _).
  cbv zeta in Hcand.
  destruct (Nat.leb_spec (topN * 2)
              (length (List.filter
                 (fun movie =>
                    if decide (id movie = id selectedMovie) then false
                    else existsb (fun g => bool_decide (g ∈ genre selectedMovie))
                                 (genre movie)) movies))) as [_|Hlt]; [|lia].
  split.
  - apply (Forall_take_sortBy similarityScore).
    apply Forall_forall. intros r Hr.
    assert (Hm : recommended r ∈ List.map recommended scored)
      by (apply list_elem_of_In, in_map, list_elem_of_In, Hr).
    rewrite Hcand in Hm. apply elem_of_List_filter in Hm as [_ Hm].
    destruct (decide _); [discriminate|].
    apply existsb_exists in Hm as (g & Hg & Hsel).
    exists g. split; [now apply list_elem_of_In | now apply bool_decide_eq_true in Hsel].
  - rewrite length_take, length_sortBy, <- (length_map recommended), Hcand. lia.
Qed.

Lemma getRecommendations_same_genre_witness :
  let out := Algorithms.getRecommendations [alien; starWars; alien] starWars (js "cosine") 1 in
  Forall (fun r => exists g, g ∈ genre (recommended r) /\ g ∈ genre starWars) out /\
  length out = 1.
Proof.
  apply (getRecommendations_same_genre [alien; starWars; alien] starWars (js "cosine") 1).
  match goal with
  | |- _ <= length ?l => replace (length l) with 2 by (vm_compute; reflexivity)
  end.
  lia.
Defined.

(** X14: when the selected movie and every catalog entry have a rating
    between 0 and 10 and texts without U+0130, every recommendation has a
    [similarityScore] between 0 and 1.25. *)
Theorem getRecommendations_score_interval
    (movies : list Movie) (selectedMovie : Movie) (algorithm : jsstring) (topN : nat) :
  inContract selectedMovie ->
  Forall inContract movies ->
  Forall (fun r => (0 <= similarityScore r <= 1.25)%R)
         (Algorithms.getRecommendations movies selectedMovie algorithm topN).
Proof.
  intros Hsel Hall.
  destruct (getRecommendations_candidates movies selectedMovie algorithm topN)
    as (scored & -> & Hcand & Hscores).
  apply (Forall_take_sortBy similarityScore).
  apply Forall_forall. intros r Hr.
  destruct (proj1 (Forall_forall _ _) Hscores r Hr) as (bonus & Hbonus & ->).
  assert (Hm : inContract (recommended r)).
  { apply (proj1 (Forall_forall _ _) Hall).
    apply (candidates_in_catalog movies selectedMovie topN). rewrite <- Hcand.
    apply list_elem_of_In, in_map, list_elem_of_In, Hr. }
  pose proof (calculateMovieSimilarity_range (recommended r)
                (description selectedMovie ++ 32%N :: join (genre selectedMovie))
                algorithm selectedMovie Hm (plain_referenceText _ Hsel) (proj1 Hsel)).
  lra.
Qed.

Lemma getRecommendations_score_interval_witness :
  Forall (fun r => (0 <= similarityScore r <= 1.25)%R)
         (Algorithms.getRecommendations [alien; starWars] starWars (js "combined") 6).
Proof.
  apply (getRecommendations_score_interval [alien; starWars] starWars (js "combined") 6).
  - exact inContract_starWars.
  - constructor; [exact inContract_alien|].
    constructor; [exact inContract_starWars | constructor].
Defined.

(** ** The title resolver as a search for the best score *)

Section BestScore.
Variable searchTerm : jsstring.

Let score (movie : Movie) : R := Algorithms.titleSimilarity searchTerm movie.

Let step : option Movie * R -> Movie -> option Movie * R :=
  fun '(bestMatch, highestSimilarity) movie =>
    if Rgt_dec (Algorithms.titleSimilarity searchTerm movie) highestSimilarity
    then (Some movie, Algorithms.titleSimilarity searchTerm movie)
    else (bestMatch, highestSimilarity).

(** What the loop knows after the entries [seen]. *)
Let known (seen : list Movie) (st : option Movie * R) : Prop :=
  (0 <= snd st)%R /\
  Forall (fun m => (score m <= snd st)%R) seen /\
  match fst st with
  | None => snd st = 0%R
  | Some m =>
      exists before after,
        seen = before ++ m :: after /\
        score m = snd st /\ (0 < snd st)%R /\
        Forall (fun m' => (score m' < snd st)%R) before
  end.

Lemma resolver_step (seen : list Movie) (st : option Movie * R) (movie : Movie) :
  known seen st -> known (seen ++ [movie]) (step st movie).
Proof.
  destruct st as [best highest]. intros (H0 & Hall & Hbest). simpl in H0, Hall, Hbest.
  unfold step. fold (score movie).
  destruct (Rgt_dec (score movie) highest) as [Hgt|Hle]; unfold known; simpl.
  - split; [lra|]. split.
    + apply Forall_app. split; [|constructor; [lra | constructor]].
      eapply Forall_impl; [exact Hall|]. simpl. intros m Hm. lra.
    + exists seen, []. split; [reflexivity|]. split; [reflexivity|]. split; [lra|].
      eapply Forall_impl; [exact Hall|]. simpl. intros m Hm. lra.
  - split; [exact H0|]. split.
    + apply Forall_app. split; [exact Hall | constructor; [lra | constructor]].
    + destruct best as [m|]; [|exact Hbest].
      destruct Hbest as (before & after & -> & Hscore & Hpos & Hbefore).
      exists before, (after ++ [movie]). rewrite <- app_assoc. simpl.
      repeat split; assumption.
Qed.

Lemma resolver_loop (rest : list Movie) :
  forall (seen : list Movie) (st : option Movie * R),
    known seen st -> known (seen ++ rest) (fold_left step rest st).
Proof.
  induction rest as [|movie rest IH]; intros seen st Hknown; simpl.
  - now rewrite app_nil_r.
  - replace (seen ++ movie :: rest) with ((seen ++ [movie]) ++ rest)
      by (rewrite <- app_assoc; reflexivity).
    apply IH, resolver_step, Hknown.
Qed.

Lemma findClosestMatch_known (movies : list Movie) :
  known movies (Algorithms.findClosestMatch movies searchTerm).
Proof.
  rewrite findClosestMatch_loop. apply (resolver_loop movies [] (None, 0%R)).
  split; [simpl; lra|]. split; [constructor | reflexivity].
Qed.
End BestScore.

(** X15: the resolver returns the highest title score of the catalog and
    the first entry that has it, provided that score is positive; otherwise
    it returns no entry and confidence 0, as it does for the empty catalog.
    The confidence is never above 1. *)
Theorem findClosestMatch_best_score (movies : list Movie) (searchTerm : jsstring) :
  let '(bestMatch, confidence) := Algorithms.findClosestMatch movies searchTerm in
  (0 <= confidence <= 1)%R /\
  Forall (fun m => (Algorithms.titleSimilarity searchTerm m <= confidence)%R) movies /\
  match bestMatch with
  | None => confidence = 0%R
  | Some m =>
      exists before after,
        movies = before ++ m :: after /\
        Algorithms.titleSimilarity searchTerm m = confidence /\
        (0 < confidence)%R /\
        Forall (fun m' => (Algorithms.titleSimilarity searchTerm m' < confidence)%R) before
  end.
Proof.
  pose proof (findClosestMatch_known searchTerm movies) as Hknown.
  destruct (Algorithms.findClosestMatch movies searchTerm) as [best confidence].
  destruct Hknown as (H0 & Hall & Hbest). simpl in H0, Hall, Hbest.
  split; [|split; assumption].
  split; [exact H0|].
  destruct best as [m|]; [|lra].
  destruct Hbest as (_ & _ & _ & <- & _). apply titleSimilarity_le_1.
Qed.

(** X16: the converse of the exact-match rule: whenever the resolver
    returns confidence 1, it returns an entry whose lower-cased title is the
    lower-cased, trimmed search term. *)
Theorem findClosestMatch_full_confidence (movies : list Movie) (searchTerm : jsstring) :
  snd (Algorithms.findClosestMatch movies searchTerm) = 1%R ->
  exists m,
    fst (Algorithms.findClosestMatch movies searchTerm) = Some m /\
    m ∈ movies /\
    toLowerCase (title m) = trim (toLowerCase searchTerm).
Proof.
  pose proof (findClosestMatch_known searchTerm movies) as Hknown.
  destruct (Algorithms.findClosestMatch movies searchTerm) as [best confidence].
  destruct Hknown as (_ & _ & Hbest). simpl in *. intros ->.
  destruct best as [m|]; [|lra].
  destruct Hbest as (before & after & -> & Hscore & _).
  exists m. split; [reflexivity|]. split.
  - apply elem_of_app. right. now left.
  - destruct (decide (toLowerCase (title m) = trim (toLowerCase searchTerm))) as [He|Hne];
      [exact He|].
    pose proof (titleSimilarity_lt_1 searchTerm m Hne). lra.
Qed.

Lemma findClosestMatch_full_confidence_witness :
  exists m,
    fst (Algorithms.findClosestMatch [alien; starWars] (js "ALIEN ")) = Some m /\
    m ∈ [alien; starWars] /\
    toLowerCase (title m) = trim (toLowerCase (js "ALIEN ")).
Proof.
  apply (findClosestMatch_full_confidence [alien; starWars] (js "ALIEN ")).
  rewrite findClosestMatch_loop.
  destruct (resolver_finds_exact (js "ALIEN ") [alien; starWars] None 0%R)
    as (before & m & after & _ & _ & _ & ->); [lra| |reflexivity].
  apply Exists_cons_hd. vm_compute. reflexivity.
Defined.

(** ** Search *)

Lemma searchMovies_entries (movies : list Movie) (searchTerm : jsstring) (maxResults : nat) :
  exists scored : list Algorithms.SearchResult,
    Algorithms.searchMovies movies searchTerm maxResults
    = take maxResults
        (sortBy (fun a b => (Algorithms.searchScore b - Algorithms.searchScore a)%R)
           (List.filter
              (fun m => if Rgt_dec (Algorithms.searchScore m) 0.1%R then true else false)
              scored)) /\
    scored =
    List.map (fun movie =>
      {| Algorithms.found := movie;
         Algorithms.searchScore :=
           (Algorithms.titleSimilarity searchTerm movie * 0.80
            + Algorithms.combinedSimilarity
                (description movie ++ 32%N :: join (genre movie)) searchTerm * 0.20)%R;
         Algorithms.titleScore := Algorithms.titleSimilarity searchTerm movie;
         Algorithms.contentScore :=
           Algorithms.combinedSimilarity
             (description movie ++ 32%N :: join (genre movie)) searchTerm |}) movies.
Proof. eexists. split; reflexivity. Qed.

(** X17: every search result is a catalog entry scored as the resolver
    scores it: its [titleScore] is the title score of [findClosestMatch], so
    never above the confidence the resolver returns for the same term, and
    its [contentScore] is the combined similarity of description and genres
    to the search term. *)
Theorem searchMovies_scores_as_resolver
    (movies : list Movie) (searchTerm : jsstring) (maxResults : nat) :
  Forall (fun r =>
            Algorithms.found r ∈ movies /\
            Algorithms.titleScore r = Algorithms.titleSimilarity searchTerm (Algorithms.found r) /\
            (Algorithms.titleScore r <= snd (Algorithms.findClosestMatch movies searchTerm))%R /\
            Algorithms.contentScore r =
            Algorithms.combinedSimilarity
              (description (Algorithms.found r) ++ 32%N :: join (genre (Algorithms.found r)))
              searchTerm)
         (Algorithms.searchMovies movies searchTerm maxResults).
Proof.
  destruct (searchMovies_entries movies searchTerm maxResults) as (scored & -> & ->).
  apply (Forall_take_sortBy Algorithms.searchScore).
  apply Forall_forall. intros r Hr.
  apply elem_of_List_filter in Hr as [Hr _].
  apply list_elem_of_In, in_map_iff in Hr as (m & <- & Hm). simpl.
  apply list_elem_of_In in Hm.
  split; [exact Hm|]. split; [reflexivity|]. split; [|reflexivity].
  destruct (findClosestMatch_known searchTerm movies) as (_ & Hall & _).
  exact (proj1 (Forall_forall _ _) Hall m Hm).
Qed.

(** ** Levenshtein distance and similarity: bounds *)

Lemma length_lowerUnit_le (c : codeunit) : length (lowerUnit c) <= 2.
Proof.
  unfold lowerUnit. destruct (_ && _); [simpl; lia|].
  destruct (_ && _); [simpl; lia|]. destruct (_ =? _)%N; simpl; lia.
Qed.

Lemma length_toLowerCase_le (s : jsstring) : length (toLowerCase s) <= 2 * length s.
Proof.
  unfold toLowerCase. induction s as [|c s IH]; simpl; [lia|].
  rewrite length_app. pose proof (length_lowerUnit_le c). lia.
Qed.

(** The similarity never falls below -1. *)
Lemma levenshteinSimilarity_ge_minus_1 (str1 str2 : jsstring) :
  (-1 <= Algorithms.levenshteinSimilarity str1 str2)%R.
Proof.
  unfold Algorithms.levenshteinSimilarity. cbv zeta.
  destruct (Nat.eqb_spec (Nat.max (length str1) (length str2)) 0) as [|Hmax]; [lra|].
  pose proof (levenshteinDistance_le_max str1 str2) as Hd.
  pose proof (length_toLowerCase_le str1). pose proof (length_toLowerCase_le str2).
  assert (Hpos : (0 < INR (Nat.max (length str1) (length str2)))%R)
    by (apply lt_0_INR; lia).
  assert (Hle : (INR (Algorithms.levenshteinDistance str1 str2)
                 <= 2 * INR (Nat.max (length str1) (length str2)))%R).
  { replace 2%R with (INR 2) by reflexivity. rewrite <- mult_INR. apply le_INR. lia. }
  assert (INR (Algorithms.levenshteinDistance str1 str2)
          / INR (Nat.max (length str1) (length str2)) <= 2)%R; [|lra].
  apply (Rmult_le_reg_r (INR (Nat.max (length str1) (length str2)))); [exact Hpos|].
  unfold Rdiv. rewrite Rmult_assoc, Rinv_l by lra. lra.
Qed.

Lemma combinedSimilarity_lower_bound (a b : jsstring) :
  (-0.1 <= Algorithms.combinedSimilarity a b)%R.
Proof.
  unfold Algorithms.combinedSimilarity. cbv zeta.
  pose proof (jaccardSimilarity_range a b). pose proof (cosineSimilarity_range a b).
  pose proof (levenshteinSimilarity_ge_minus_1 a b). lra.
Qed.

(** X18: when [maxResults] is at least the size of the catalog, every
    entry whose lower-cased title is the lower-cased, trimmed search term is
    among the search results, with [titleScore] 1 and a [searchScore] of at
    least 0.78. *)
Theorem searchMovies_keeps_exact_title
    (movies : list Movie) (searchTerm : jsstring) (maxResults : nat) (m : Movie) :
  m ∈ movies ->
  toLowerCase (title m) = trim (toLowerCase searchTerm) ->
  length movies <= maxResults ->
  exists r,
    r ∈ Algorithms.searchMovies movies searchTerm maxResults /\
    Algorithms.found r = m /\
    Algorithms.titleScore r = 1%R /\
    (0.78 <= Algorithms.searchScore r)%R.
Proof.
  intros Hm Hexact Hmax.
  destruct (searchMovies_entries movies searchTerm maxResults) as (scored & -> & Hscored).
  set (r := {| Algorithms.found := m;
               Algorithms.searchScore :=
                 (Algorithms.titleSimilarity searchTerm m * 0.80
                  + Algorithms.combinedSimilarity
                      (description m ++ 32%N :: join (genre m)) searchTerm * 0.20)%R;
               Algorithms.titleScore := Algorithms.titleSimilarity searchTerm m;
               Algorithms.contentScore :=
                 Algorithms.combinedSimilarity
                   (description m ++ 32%N :: join (genre m)) searchTerm |}).
  pose proof (titleSimilarity_exact searchTerm m Hexact) as Htitle.
  pose proof (combinedSimilarity_lower_bound
                (description m ++ 32%N :: join (genre m)) searchTerm) as Hcontent.
  assert (Hscore : (0.78 <= Algorithms.searchScore r)%R) by (simpl; lra).
  exists r. split; [|split; [reflexivity | split; [exact Htitle | exact Hscore]]].
  rewrite take_ge.
  - rewrite (sortBy_Permutation Algorithms.searchScore).
    apply elem_of_List_filter. split.
    + rewrite Hscored. apply list_elem_of_In, in_map_iff.
      exists m. split; [reflexivity | apply list_elem_of_In, Hm].
    + destruct (Rgt_dec (Algorithms.searchScore r) 0.1); [reflexivity | lra].
  - rewrite length_sortBy.
    etransitivity; [apply length_filter_le|]. rewrite Hscored, length_map. exact Hmax.
Qed.

Lemma searchMovies_keeps_exact_title_witness :
  exists r,
    r ∈ Algorithms.searchMovies [alien; starWars] (js " star wars") 10 /\
    Algorithms.found r = starWars /\
    Algorithms.titleScore r = 1%R /\
    (0.78 <= Algorithms.searchScore r)%R.
Proof.
  apply (searchMovies_keeps_exact_title [alien; starWars] (js " star wars") 10 starWars).
  - apply elem_of_cons. right. apply elem_of_cons. now left.
  - vm_compute. reflexivity.
  - simpl. lia.
Defined.

Lemma editCell_ge_diff (s1 s2 : jsstring) :
  forall i j, absDiff i j <= editCell s1 s2 i j.
Proof.
  unfold absDiff. induction i as [|i IHi]; intros j.
  - rewrite editCell_zero_l. lia.
  - induction j as [|j IHj].
    + rewrite editCell_zero_r. lia.
    + rewrite editCell_succ. pose proof (IHi j). pose proof (IHi (S j)).
      destruct (decide (s1 !! i = s2 !! j)); unfold min3; lia.
Qed.

(** X19: both programs return a distance between the difference and the
    larger of the two lower-cased lengths, and 0 for strings that are equal
    without regard to case; the matrix program returns 0 for no others. *)
Theorem levenshteinDistance_bounds (str1 str2 : jsstring) :
  let len1 := length (toLowerCase str1) in
  let len2 := length (toLowerCase str2) in
  (absDiff len1 len2 <= JsAlgorithms.levenshteinDistance str1 str2 <= Nat.max len1 len2) /\
  (absDiff len1 len2 <= Algorithms.levenshteinDistance str1 str2 <= Nat.max len1 len2) /\
  (JsAlgorithms.levenshteinDistance str1 str2 = 0 <-> toLowerCase str1 = toLowerCase str2) /\
  (Algorithms.levenshteinDistance str1 str2 = 0 <-> toLowerCase str1 = toLowerCase str2).
Proof.
  intros len1 len2.
  rewrite two_row_levenshteinDistance, matrix_levenshteinDistance. cbv zeta.
  fold len1 len2.
  pose proof (editCell_ge_diff (toLowerCase str1) (toLowerCase str2) len1 len2) as Hlow.
  pose proof (editCell_le_max (toLowerCase str1) (toLowerCase str2) len1 len2) as Hup.
  assert (Hzero : editCell (toLowerCase str1) (toLowerCase str2) len1 len2 = 0
                  <-> toLowerCase str1 = toLowerCase str2).
  { split; [apply editCell_zero_eq|]. intros Heq. unfold len1, len2.
    rewrite Heq. apply editCell_diag. }
  split; [lia|]. split; [|split; [exact Hzero|]].
  - destruct (Nat.ltb_spec (Nat.max len1 len2) (2 * absDiff len1 len2));
      [unfold absDiff in *; lia | lia].
  - destruct (Nat.ltb_spec (Nat.max len1 len2) (2 * absDiff len1 len2)) as [Hs|Hs];
      [|exact Hzero].
    split.
    + intros H0. unfold absDiff in Hs. lia.
    + intros Heq. exfalso. unfold len1, len2, absDiff in Hs. rewrite Heq in Hs. lia.
Qed.

Lemma levenshteinDistance_bounds_witness :
  Algorithms.levenshteinDistance (js "Alien") (js "ALIEN") = 0.
Proof.
  apply (levenshteinDistance_bounds (js "Alien") (js "ALIEN")).
  vm_compute. reflexivity.
Defined.

(** X20: the Levenshtein similarity is 1 exactly for two strings that are
    equal without regard to case. *)
Theorem levenshteinSimilarity_one_iff (str1 str2 : jsstring) :
  Algorithms.levenshteinSimilarity str1 str2 = 1%R <-> toLowerCase str1 = toLowerCase str2.
Proof.
  split; [apply levenshteinSimilarity_one_inv|].
  intros Heq. unfold Algorithms.levenshteinSimilarity. cbv zeta.
  rewrite two_row_levenshteinDistance. cbv zeta. rewrite Heq.
  replace (absDiff _ _) with 0 by (unfold absDiff; lia). rewrite Nat.mul_0_r.
  destruct (Nat.ltb_spec (Nat.max (length (toLowerCase str2)) (length (toLowerCase str2))) 0);
    [lia|].
  rewrite editCell_diag. destruct (_ =? 0); [reflexivity|]. simpl INR. unfold Rdiv. lra.
Qed.

Lemma levenshteinSimilarity_one_iff_witness :
  Algorithms.levenshteinSimilarity (js "Alien") (js "ALIEN") = 1%R.
Proof.
  apply (levenshteinSimilarity_one_iff (js "Alien") (js "ALIEN")).
  vm_compute. reflexivity.
Defined.

(** X21: two strings without U+0130 whose lengths differ by more than half
    the longer one have Levenshtein similarity 0, whatever they have in
    common: a title and a much longer title that starts with it, or any
    non-empty string and the empty string. *)
Theorem levenshteinSimilarity_short_circuit (str1 str2 : jsstring) :
  plain str1 -> plain str2 ->
  Nat.max (length str1) (length str2) < 2 * absDiff (length str1) (length str2) ->
  Algorithms.levenshteinSimilarity str1 str2 = 0%R.
Proof.
  intros H1 H2 Hdiff. unfold Algorithms.levenshteinSimilarity. cbv zeta.
  rewrite two_row_levenshteinDistance. cbv zeta.
  rewrite !length_toLowerCase by assumption.
  destruct (Nat.ltb_spec (Nat.max (length str1) (length str2))
              (2 * absDiff (length str1) (length str2))) as [_|Hge]; [|lia].
  destruct (Nat.eqb_spec (Nat.max (length str1) (length str2)) 0) as [H0|Hpos].
  - unfold absDiff in Hdiff. lia.
  - rewrite Rdiv_diag; [lra|]. apply not_0_INR. exact Hpos.
Qed.

Lemma levenshteinSimilarity_short_circuit_witness :
  Algorithms.levenshteinSimilarity (js "Alien") (js "Alien: Covenant") = 0%R.
Proof.
  apply (levenshteinSimilarity_short_circuit (js "Alien") (js "Alien: Covenant")).
  - prove_plain.
  - prove_plain.
  - vm_compute. lia.
Defined.

(** X22: the short-circuit never raises a score: the Levenshtein
    similarity of the two-row program is at most that of the matrix
    program. *)
Theorem short_circuit_lowers_similarity (str1 str2 : jsstring) :
  (Algorithms.levenshteinSimilarity str1 str2
   <= JsAlgorithms.levenshteinSimilarity str1 str2)%R.
Proof.
  unfold Algorithms.levenshteinSimilarity, JsAlgorithms.levenshteinSimilarity. cbv zeta.
  destruct (Nat.eqb_spec (Nat.max (length str1) (length str2)) 0) as [|Hmax]; [lra|].
  assert (Hd : JsAlgorithms.levenshteinDistance str1 str2
               <= Algorithms.levenshteinDistance str1 str2).
  { rewrite two_row_levenshteinDistance, matrix_levenshteinDistance. cbv zeta.
    destruct (_ <? _); [apply editCell_le_max | lia]. }
  assert (Hpos : (0 < / INR (Nat.max (length str1) (length str2)))%R)
    by (apply Rinv_0_lt_compat, lt_0_INR; lia).
  apply le_INR in Hd. unfold Rdiv. nra.
Qed.

(** * Further properties of [js/algorithms.js] *)

(** ** Word sets and their overlap *)

Section Overlap.
Variables words1 words2 : list jsstring.

Let set1 := newSet words1 [].
Let set2 := newSet words2 [].
Let intersection := newSet (List.filter (has set2) set1) [].
Let union := newSet (set1 ++ set2) [].



End Overlap.





(** ** Term-frequency vectors *)









(** X24: in [js/algorithms.js] the resolver satisfies the exact-match rule
    as the specification words it: a catalog entry whose title equals the
    search term without regard to case gives confidence 1, with the first
    such entry as the match. *)
Theorem Js_findClosestMatch_case_insensitive (movies : list Movie) (searchTerm : jsstring) :
  Exists (fun m => toLowerCase (title m) = toLowerCase searchTerm) movies ->
  exists before m after,
    movies = before ++ m :: after /\
    Forall (fun m' => toLowerCase (title m') <> toLowerCase searchTerm) before /\
    toLowerCase (title m) = toLowerCase searchTerm /\
    JsAlgorithms.findClosestMatch movies searchTerm = (Some m, 1%R).
Proof. apply Js_findClosestMatch_exact_title. Qed.

Lemma Js_findClosestMatch_case_insensitive_witness :
  exists before m after,
    [alien; upPadded] = before ++ m :: after /\
    Forall (fun m' => toLowerCase (title m') <> toLowerCase (js "up ")) before /\
    toLowerCase (title m) = toLowerCase (js "up ") /\
    JsAlgorithms.findClosestMatch [alien; upPadded] (js "up ") = (Some m, 1%R).
Proof.
  apply (Js_findClosestMatch_case_insensitive [alien; upPadded] (js "up ")).
  apply Exists_cons_tl, Exists_cons_hd. vm_compute. reflexivity.
Defined.

(** * The application and the proxy endpoints *)

(** ** Truncation *)

(** X25: a text no longer than [maxLength] is returned as it is; a longer
    one becomes its first [maxLength] code units followed by three dots, so
    that the result keeps the first [maxLength] code units of the text and
    is never longer than [maxLength + 3]. *)
Theorem truncateText_properties (text : jsstring) (maxLength : nat) :
  (length text <= maxLength -> truncateText text maxLength = text) /\
  (maxLength < length text ->
   truncateText text maxLength = take maxLength text ++ js "..." /\
   length (truncateText text maxLength) = maxLength + 3) /\
  take maxLength (truncateText text maxLength) = take maxLength text /\
  length (truncateText text maxLength) <= maxLength + 3.
Proof.
  unfold truncateText.
  destruct (Nat.leb_spec (length text) maxLength) as [Hshort|Hlong].
  - split; [reflexivity|]. split; [lia|]. split; [reflexivity | lia].
  - assert (Hlen : length (take maxLength text ++ js "...") = maxLength + 3).
    { rewrite length_app, length_take. simpl. lia. }
    split; [lia|]. split; [now split|]. split; [|lia].
    rewrite take_app_le by (rewrite length_take; lia).
    rewrite take_take. f_equal. lia.
Qed.

Lemma truncateText_properties_witness :
  truncateText (js "An old man flies his house") 10 = take 10 (js "An old man flies his house") ++ js "..." /\
  length (truncateText (js "An old man flies his house") 10) = 10 + 3.
Proof.
  apply (truncateText_properties (js "An old man flies his house") 10).
  simpl. lia.
Defined.

(** ** The search handler *)

Lemma trim_nil_of_spaces (s : jsstring) :
  Forall (fun c => isSpace c = true) s -> trim s = [].
Proof. intros Hs. unfold trim. now rewrite trimStart_spaces. Qed.

(** X26: an input that is empty or made of white space gives the error
    asking for a title, whatever the catalog and the network would answer:
    the resolver is never run on a blank search term.  With the API in use,
    a movie that OMDb returns for the trimmed input is the one selected. *)
Theorem handleSearch_blank_and_remote
    (inputValue : jsstring) (useOmdbApi : bool) (moviesData : list Movie)
    (fetchFromOMDb : jsstring -> option Movie) (searchOMDb : jsstring -> list Movie) :
  (Forall (fun c => isSpace c = true) inputValue ->
   handleSearch inputValue useOmdbApi moviesData fetchFromOMDb searchOMDb
   = PleaseEnterTitle) /\
  (forall movie,
     trim inputValue <> [] ->
     fetchFromOMDb (trim inputValue) = Some movie ->
     handleSearch inputValue true moviesData fetchFromOMDb searchOMDb = Selected movie).
Proof.
  unfold handleSearch. cbv zeta. split.
  - intros Hblank. now rewrite trim_nil_of_spaces.
  - intros movie Hne Hfetch.
    destruct (trim inputValue) as [|c s] eqn:Htrim; [contradiction|].
    simpl. now rewrite Hfetch.
Qed.

Lemma handleSearch_blank_and_remote_witness :
  handleSearch (js "   ") false [alien; starWars] (fun _ => None) (fun _ => [])
  = PleaseEnterTitle.
Proof.
  apply (handleSearch_blank_and_remote (js "   ") false [alien; starWars]
           (fun _ => None) (fun _ => [])).
  repeat constructor.
Defined.

(** X27: without the API, a non-blank input selects a movie exactly when
    the resolver's confidence for the trimmed input is above 0.3; the movie
    selected is the catalog entry the resolver returns, and its title score
    is that confidence.  Otherwise the search ends without match. *)
Theorem handleSearch_local_threshold
    (inputValue : jsstring) (moviesData : list Movie)
    (fetchFromOMDb : jsstring -> option Movie) (searchOMDb : jsstring -> list Movie) :
  trim inputValue <> [] ->
  let '(localMovie, similarity) :=
    Algorithms.findClosestMatch moviesData (trim inputValue) in
  ((0.3 < similarity)%R ->
   exists movie,
     localMovie = Some movie /\ movie ∈ moviesData /\
     Algorithms.titleSimilarity (trim inputValue) movie = similarity /\
     handleSearch inputValue false moviesData fetchFromOMDb searchOMDb = Selected movie) /\
  ((similarity <= 0.3)%R ->
   handleSearch inputValue false moviesData fetchFromOMDb searchOMDb
   = NoMatchFound (trim inputValue)).
Proof.
  intros Hne. unfold handleSearch. cbv zeta.
  pose proof (findClosestMatch_known (trim inputValue) moviesData) as Hknown.
  destruct (trim inputValue) as [|c s] eqn:Htrim; [contradiction|].
  simpl length. simpl Nat.eqb. cbv iota.
  destruct (Algorithms.findClosestMatch moviesData (c :: s)) as [localMovie similarity]
    eqn:Hmatch.
  destruct Hknown as (H0 & _ & Hbest). simpl in H0, Hbest.
  split.
  - intros Hgt. destruct localMovie as [movie|]; [|lra].
    destruct Hbest as (before & after & Hcat & Hscore & _).
    exists movie. split; [reflexivity|]. split; [|split; [exact Hscore|]].
    + rewrite Hcat. apply elem_of_app. right. now left.
    + destruct moviesData as [|m0 ms]; [now destruct before|]. simpl.
      destruct (Rgt_dec similarity 0.3) as [_|Hn]; [reflexivity | lra].
  - intros Hle. destruct moviesData as [|m0 ms]; [reflexivity|]. simpl.
    destruct localMovie as [movie|]; [|reflexivity].
    destruct (Rgt_dec similarity 0.3) as [Hgt|_]; [lra | reflexivity].
Qed.

Lemma handleSearch_local_threshold_witness :
  let '(localMovie, similarity) :=
    Algorithms.findClosestMatch [alien; starWars] (trim (js "star wars ")) in
  ((0.3 < similarity)%R ->
   exists movie,
     localMovie = Some movie /\ movie ∈ [alien; starWars] /\
     Algorithms.titleSimilarity (trim (js "star wars ")) movie = similarity /\
     handleSearch (js "star wars ") false [alien; starWars] (fun _ => None) (fun _ => [])
     = Selected movie) /\
  ((similarity <= 0.3)%R ->
   handleSearch (js "star wars ") false [alien; starWars] (fun _ => None) (fun _ => [])
   = NoMatchFound (trim (js "star wars "))).
Proof.
  apply (handleSearch_local_threshold (js "star wars ") [alien; starWars]
           (fun _ => None) (fun _ => [])).
  vm_compute. discriminate.
Defined.

(** ** Percent-encoding *)

Lemma hexDigit_unescaped (n : N) : (n < 16)%N -> isUriUnescaped (hexDigit n) = true.
Proof.
  intros Hn.
  assert (Hall : forall k, k < 16 -> isUriUnescaped (hexDigit (N.of_nat k)) = true).
  { intros k Hk. do 16 (destruct k as [|k]; [vm_compute; reflexivity|]). lia. }
  rewrite <- (N2Nat.id n). apply Hall. lia.
Qed.

Lemma percentEncode_safe (octet : N) : (octet < 256)%N -> Forall uriSafe (percentEncode octet).
Proof.
  intros Ho. unfold percentEncode.
  constructor; [now right|].
  constructor; [left; apply hexDigit_unescaped; now apply N.Div0.div_lt_upper_bound|].
  constructor; [left; apply hexDigit_unescaped; now apply N.mod_lt | constructor].
Qed.

Lemma utf8_octets (cp : N) : (cp < 1114112)%N -> Forall (fun o => (o < 256)%N) (utf8 cp).
Proof.
  intros Hcp. unfold utf8.
  assert (Hm : forall x : N, (128 + x mod 64 < 256)%N).
  { intros x. pose proof (N.mod_lt x 64 ltac:(lia)). lia. }
  destruct (N.ltb_spec cp 128); [repeat constructor; lia|].
  destruct (N.ltb_spec cp 2048).
  { assert (cp / 64 < 32)%N by (apply N.Div0.div_lt_upper_bound; lia).
    repeat constructor; [lia | apply Hm]. }
  destruct (N.ltb_spec cp 65536).
  { assert (cp / 4096 < 16)%N by (apply N.Div0.div_lt_upper_bound; lia).
    repeat constructor; [lia | apply Hm | apply Hm]. }
  assert (cp / 262144 < 5)%N by (apply N.Div0.div_lt_upper_bound; lia).
  repeat constructor; [lia | apply Hm | apply Hm | apply Hm].
Qed.

Lemma escape_safe (cp : N) :
  (cp < 1114112)%N -> Forall uriSafe (concat (List.map percentEncode (utf8 cp))).
Proof.
  intros Hcp. pose proof (utf8_octets cp Hcp) as Hoct.
  induction Hoct as [|o os Ho _ IH]; [constructor|].
  change (concat (List.map percentEncode (o :: os)))
    with (percentEncode o ++ concat (List.map percentEncode os)).
  apply Forall_app. split; [now apply percentEncode_safe | exact IH].
Qed.

Lemma encodeURIComponent_safe_gen (n : nat) :
  forall s : jsstring,
    length s <= n ->
    Forall (fun c => (c < 65536)%N) s ->
    match encodeURIComponent s with
    | Some encoded => Forall uriSafe encoded
    | None => Exists (fun c => isLeadSurrogate c = true \/ isTrailSurrogate c = true) s
    end.
Proof.
  induction n as [|n IH]; intros s Hlen Hunits.
  - destruct s; [simpl; constructor | simpl in Hlen; lia].
  - destruct s as [|c s]; [simpl; constructor|].
    inversion Hunits as [|? ? Hc Hs]; subst. simpl in Hlen. simpl.
    destruct (isUriUnescaped c) eqn:Hu.
    { specialize (IH s ltac:(lia) Hs). destruct (encodeURIComponent s).
      - constructor; [now left | exact IH].
      - now apply Exists_cons_tl. }
    destruct (isTrailSurrogate c) eqn:Ht; [apply Exists_cons_hd; now right|].
    destruct (isLeadSurrogate c) eqn:Hl.
    { destruct s as [|d s]; [apply Exists_cons_hd; now left|].
      destruct (isTrailSurrogate d) eqn:Hd; [|apply Exists_cons_hd; now left].
      inversion Hs as [|? ? Hd' Hs']; subst. simpl in Hlen.
      specialize (IH s ltac:(lia) Hs'). destruct (encodeURIComponent s).
      - apply Forall_app. split; [|exact IH]. apply escape_safe.
        unfold isLeadSurrogate in Hl. unfold isTrailSurrogate in Hd.
        apply andb_true_iff in Hl as [Hl1 Hl2]. apply andb_true_iff in Hd as [Hd1 Hd2].
        apply N.leb_le in Hl1, Hl2, Hd1, Hd2. lia.
      - now apply Exists_cons_tl, Exists_cons_tl. }
    specialize (IH s ltac:(lia) Hs). destruct (encodeURIComponent s).
    + apply Forall_app. split; [|exact IH]. apply escape_safe. lia.
    + now apply Exists_cons_tl.
Qed.

Lemma encodeURIComponent_safe (s encoded : jsstring) :
  Forall (fun c => (c < 65536)%N) s ->
  encodeURIComponent s = Some encoded -> Forall uriSafe encoded.
Proof.
  intros Hunits Henc.
  pose proof (encodeURIComponent_safe_gen (length s) s (le_n _) Hunits) as H.
  now rewrite Henc in H.
Qed.

Lemma encodeURIComponent_unescaped (s : jsstring) :
  Forall (fun c => isUriUnescaped c = true) s -> encodeURIComponent s = Some s.
Proof.
  induction 1 as [|c s Hc _ IH]; simpl; [reflexivity|]. now rewrite Hc, IH.
Qed.

(** X28: for a string of 16-bit code units, [encodeURIComponent] either
    returns a string made of unescaped characters and percent signs only, so
    without [&], [=], [#], [?], [/] or a space, or it fails and the string
    holds a surrogate; a string of unescaped characters is returned as it
    is. *)
Theorem encodeURIComponent_properties (s : jsstring) :
  Forall (fun c => (c < 65536)%N) s ->
  match encodeURIComponent s with
  | Some encoded =>
      Forall uriSafe encoded /\
      Forall (fun c => ~ c ∈ [38; 61; 35; 63; 47; 32]%N) encoded
  | None => Exists (fun c => isLeadSurrogate c = true \/ isTrailSurrogate c = true) s
  end /\
  (Forall (fun c => isUriUnescaped c = true) s -> encodeURIComponent s = Some s).
Proof.
  intros Hunits. split; [|apply encodeURIComponent_unescaped].
  pose proof (encodeURIComponent_safe_gen (length s) s (le_n _) Hunits) as H.
  destruct (encodeURIComponent s) as [encoded|]; [|exact H].
  split; [exact H|].
  eapply Forall_impl; [exact H|]. intros c [Hc| ->] Hin.
  - rewrite !elem_of_cons, elem_of_nil in Hin.
    destruct Hin as [->|[->|[->|[->|[->|[->|[]]]]]]]; discriminate Hc.
  - rewrite !elem_of_cons, elem_of_nil in Hin.
    destruct Hin as [H'|[H'|[H'|[H'|[H'|[H'|[]]]]]]]; discriminate H'.
Qed.

Lemma encodeURIComponent_properties_witness :
  match encodeURIComponent (js "Tom & Jerry") with
  | Some encoded =>
      Forall uriSafe encoded /\
      Forall (fun c => ~ c ∈ [38; 61; 35; 63; 47; 32]%N) encoded
  | None =>
      Exists (fun c => isLeadSurrogate c = true \/ isTrailSurrogate c = true)
             (js "Tom & Jerry")
  end.
Proof.
  apply (encodeURIComponent_properties (js "Tom & Jerry")).
  repeat constructor.
Defined.

Example encodeURIComponent_example :
  encodeURIComponent (js "Tom & Jerry") = Some (js "Tom%20%26%20Jerry") /\
  encodeURIComponent [233%N] = Some (js "%C3%A9") /\
  encodeURIComponent [55357%N; 56834%N] = Some (js "%F0%9F%98%82") /\
  encodeURIComponent [55357%N] = None.
Proof. repeat split; vm_compute; reflexivity. Qed.

(** ** The proxy endpoints *)

(** X29: the movie endpoint answers 400 exactly when the title is missing
    or empty, whatever the key; it answers 200 only with the data the
    upstream returned, unchanged, for a URL in which the title appears
    percent-encoded, between the key and [&type=movie], with the year after
    it as given; every other answer is 500.  The endpoint of [server.js]
    answers as the one of [api/movie.js]. *)
Theorem movie_endpoint {Data : Type} (API_KEY title year : option jsstring)
    (fetchJson : jsstring -> option Data) :
  Forall (fun c => (c < 65536)%N) (default [] title) ->
  let response := ApiMovie.handler API_KEY title year fetchJson in
  (statusCode response = 400 <-> falsy title = true) /\
  (statusCode response = 200 ->
   exists encoded data,
     encodeURIComponent (default [] title) = Some encoded /\
     Forall uriSafe encoded /\
     fetchJson (OMDB_BASE_URL ++ js "?apikey=" ++ default [] API_KEY ++ js "&t="
                ++ encoded ++ js "&type=movie"
                ++ (if falsy year then [] else js "&y=" ++ default [] year))
     = Some data /\
     responseBody response = Upstream data) /\
  (statusCode response = 200 \/ statusCode response = 400 \/ statusCode response = 500) /\
  Server.apiMovie API_KEY title year fetchJson = response.
Proof.
  intros Hunits response. unfold response, ApiMovie.handler. cbv zeta.
  split; [|split; [|split; [|reflexivity]]].
  - destruct (falsy title); [split; reflexivity|].
    destruct (falsy API_KEY); [split; simpl; [lia | discriminate]|].
    destruct (encodeURIComponent _); [|split; simpl; [lia | discriminate]].
    destruct (fetchJson _); split; simpl; try lia; discriminate.
  - destruct (falsy title); [simpl; lia|].
    destruct (falsy API_KEY); [simpl; lia|].
    destruct (encodeURIComponent (default [] title)) as [encoded|] eqn:Henc; [|simpl; lia].
    assert (Hurl : (if falsy year
                    then OMDB_BASE_URL ++ js "?apikey=" ++ default [] API_KEY ++ js "&t=" ++
                         encoded ++ js "&type=movie"
                    else (OMDB_BASE_URL ++ js "?apikey=" ++ default [] API_KEY ++ js "&t=" ++
                          encoded ++ js "&type=movie") ++ js "&y=" ++ default [] year)
                   = OMDB_BASE_URL ++ js "?apikey=" ++ default [] API_KEY ++ js "&t="
                     ++ encoded ++ js "&type=movie"
                     ++ (if falsy year then [] else js "&y=" ++ default [] year)).
    { destruct (falsy year); [now rewrite app_nil_r | now rewrite <- !app_assoc]. }
    rewrite Hurl. destruct (fetchJson _) as [data|] eqn:Hfetch; [|simpl; lia].
    intros _. exists encoded, data. split; [reflexivity|].
    split; [now apply (encodeURIComponent_safe (default [] title))|].
    split; [exact Hfetch | reflexivity].
  - destruct (falsy title); [simpl; tauto|].
    destruct (falsy API_KEY); [simpl; tauto|].
    destruct (encodeURIComponent _); [|simpl; tauto].
    destruct (fetchJson _); simpl; tauto.
Qed.

Lemma movie_endpoint_witness :
  (statusCode (ApiMovie.handler (Some (js "k3y")) (Some (js "Tom & Jerry")) None
                 (fun url => Some url)) = 400 <->
   falsy (Some (js "Tom & Jerry")) = true) /\
  (statusCode (ApiMovie.handler (Some (js "k3y")) (Some (js "Tom & Jerry")) None
                 (fun url => Some url)) = 200 ->
   exists encoded data,
     encodeURIComponent (default [] (Some (js "Tom & Jerry"))) = Some encoded /\
     Forall uriSafe encoded /\
     (fun url => Some url)
       (OMDB_BASE_URL ++ js "?apikey=" ++ default [] (Some (js "k3y")) ++ js "&t="
        ++ encoded ++ js "&type=movie"
        ++ (if falsy None then [] else js "&y=" ++ default [] None))
     = Some data /\
     responseBody (ApiMovie.handler (Some (js "k3y")) (Some (js "Tom & Jerry")) None
                     (fun url => Some url)) = Upstream data) /\
  (statusCode (ApiMovie.handler (Some (js "k3y")) (Some (js "Tom & Jerry")) None
                 (fun url => Some url)) = 200 \/
   statusCode (ApiMovie.handler (Some (js "k3y")) (Some (js "Tom & Jerry")) None
                 (fun url => Some url)) = 400 \/
   statusCode (ApiMovie.handler (Some (js "k3y")) (Some (js "Tom & Jerry")) None
                 (fun url => Some url)) = 500) /\
  Server.apiMovie (Some (js "k3y")) (Some (js "Tom & Jerry")) None (fun url => Some url)
  = ApiMovie.handler (Some (js "k3y")) (Some (js "Tom & Jerry")) None
      (fun url => Some url).
Proof.
  apply (movie_endpoint (Some (js "k3y")) (Some (js "Tom & Jerry")) None
           (fun url => Some url)).
  repeat constructor.
Defined.

(** X30: the search endpoint answers 400 exactly when the query is missing
    or empty; it answers 200 only with the data the upstream returned,
    unchanged, for the URL that carries the key and the percent-encoded
    query; every other answer is 500.  The endpoint of [server.js] answers
    as the one of [api/search.js]. *)
Theorem search_endpoint {Data : Type} (API_KEY query : option jsstring)
    (fetchJson : jsstring -> option Data) :
  Forall (fun c => (c < 65536)%N) (default [] query) ->
  let response := ApiSearch.handler API_KEY query fetchJson in
  (statusCode response = 400 <-> falsy query = true) /\
  (statusCode response = 200 ->
   exists encoded data,
     encodeURIComponent (default [] query) = Some encoded /\
     Forall uriSafe encoded /\
     fetchJson (OMDB_BASE_URL ++ js "?apikey=" ++ default [] API_KEY ++ js "&s="
                ++ encoded ++ js "&type=movie") = Some data /\
     responseBody response = Upstream data) /\
  (statusCode response = 200 \/ statusCode response = 400 \/ statusCode response = 500) /\
  Server.apiSearch API_KEY query fetchJson = response.
Proof.
  intros Hunits response. unfold response, ApiSearch.handler. cbv zeta.
  split; [|split; [|split; [|reflexivity]]].
  - destruct (falsy query); [split; reflexivity|].
    destruct (falsy API_KEY); [split; simpl; [lia | discriminate]|].
    destruct (encodeURIComponent _); [|split; simpl; [lia | discriminate]].
    destruct (fetchJson _); split; simpl; try lia; discriminate.
  - destruct (falsy query); [simpl; lia|].
    destruct (falsy API_KEY); [simpl; lia|].
    destruct (encodeURIComponent (default [] query)) as [encoded|] eqn:Henc; [|simpl; lia].
    destruct (fetchJson _) as [data|] eqn:Hfetch; [|simpl; lia].
    intros _. exists encoded, data. split; [reflexivity|].
    split; [now apply (encodeURIComponent_safe (default [] query))|].
    split; [exact Hfetch | reflexivity].
  - destruct (falsy query); [simpl; tauto|].
    destruct (falsy API_KEY); [simpl; tauto|].
    destruct (encodeURIComponent _); [|simpl; tauto].
    destruct (fetchJson _); simpl; tauto.
Qed.

Lemma search_endpoint_witness :
  statusCode (ApiSearch.handler (Some (js "k3y")) (Some (js "star wars")) 
                (fun url => Some url)) = 400 <-> falsy (Some (js "star wars")) = true.
Proof.
  apply (search_endpoint (Some (js "k3y")) (Some (js "star wars")) (fun url => Some url)).
  repeat constructor.
Defined.
